(** * srp_tasks: the task record codec, the file storage and the task manager

    A shallow embedding of [srp_tasks.py].

    Conventions of the embedding.
    - A Python [str] is a [string]; a character is a code point below 256
      (Latin-1), which is where [str.isspace], [str.lower] and [int()] are
      modelled.  Reading and writing such text as UTF-8 is the identity on
      the decoded text, so the backing file is modelled by its decoded text.
    - A Python [int] is a [Z]; the interpreter's optional limit on the
      number of digits of an integer conversion is not modelled.
    - The file is opened in text mode on a POSIX system: writing leaves a
      line feed as it is, reading translates every line ending to a line
      feed (universal newlines).
    - Console output ([print]) is not modelled. *)

From Stdlib Require Import ZArith NArith List String Ascii Bool Lia.
From Stdlib Require Import DecimalString DecimalZ Sorted.
Import ListNotations.

#[local] Open Scope list_scope.
#[local] Open Scope string_scope.
#[local] Open Scope Z_scope.

(* ================================================================== *)
(** * Python text primitives used by the program *)
(* ================================================================== *)

Definition LF : ascii := "010"%char.
Definition CR : ascii := "013"%char.
Definition COMMA : ascii := ","%char.

Definition code_between (lo hi : N) (c : ascii) : bool :=
  (lo <=? N_of_ascii c)%N && (N_of_ascii c <=? hi)%N.

(** [str.isspace] on one character: tab to carriage return, the four
    information separators, space, next-line and no-break space. *)
Definition isspace (c : ascii) : bool :=
  code_between 9 13 c || code_between 28 32 c
  || (N_of_ascii c =? 133)%N || (N_of_ascii c =? 160)%N.

(** The white space [int()] skips around a number: as [isspace], without
    the information separators. *)
Definition int_space (c : ascii) : bool :=
  code_between 9 13 c || (N_of_ascii c =? 32)%N
  || (N_of_ascii c =? 133)%N || (N_of_ascii c =? 160)%N.

(** [str.lower] on one character: A-Z and the Latin-1 capitals (the
    multiplication sign, code 215, is not a letter). *)
Definition lower_char (c : ascii) : ascii :=
  if code_between 65 90 c
     || (code_between 192 222 c && negb (N_of_ascii c =? 215)%N)
  then ascii_of_N (N_of_ascii c + 32)
  else c.

Fixpoint lower (s : string) : string :=
  match s with
  | EmptyString => EmptyString
  | String c s' => String (lower_char c) (lower s')
  end.

(** [s.lstrip(chars)] and [s.rstrip(chars)], the set of characters given
    by its membership test. *)
Fixpoint lstrip (p : ascii -> bool) (s : string) : string :=
  match s with
  | EmptyString => EmptyString
  | String c s' => if p c then lstrip p s' else s
  end.

Fixpoint rstrip (p : ascii -> bool) (s : string) : string :=
  match s with
  | EmptyString => EmptyString
  | String c s' =>
      match rstrip p s' with
      | EmptyString => if p c then EmptyString else String c EmptyString
      | r => String c r
      end
  end.

(** [s.strip()] *)
Definition strip (s : string) : string := rstrip isspace (lstrip isspace s).

(** [s.startswith(p)] *)
Fixpoint startswith (p s : string) : bool :=
  match p, s with
  | EmptyString, _ => true
  | String a p', String b s' => Ascii.eqb a b && startswith p' s'
  | String _ _, EmptyString => false
  end.

(** [p in s] for strings: [p] occurs in [s]. *)
Fixpoint occurs (p s : string) : bool :=
  startswith p s
  || match s with
     | EmptyString => false
     | String _ s' => occurs p s'
     end.

(** [c in s] for one character. *)
Fixpoint has_char (c : ascii) (s : string) : bool :=
  match s with
  | EmptyString => false
  | String b s' => Ascii.eqb b c || has_char c s'
  end.

(** [s.split(sep)] for a separator of one character: the fields between
    the separators, always at least one. *)
Fixpoint split (sep : ascii) (s : string) : list string :=
  match s with
  | EmptyString => [EmptyString]
  | String c s' =>
      if Ascii.eqb c sep then EmptyString :: split sep s'
      else match split sep s' with
           | [] => [String c EmptyString]
           | field :: fields => String c field :: fields
           end
  end.

(** [s.replace(old, new)] for a non-empty [old]: scan from the left; where
    [old] starts, emit [new] and skip the rest of [old]; elsewhere copy the
    character.  [skip] counts the characters of a matched [old] still to
    pass over. *)
Fixpoint replace_from (old new : string) (skip : nat) (s : string) : string :=
  match s with
  | EmptyString => EmptyString
  | String c s' =>
      match skip with
      | S k => replace_from old new k s'
      | O =>
          if startswith old s
          then new ++ replace_from old new (Nat.pred (String.length old)) s'
          else String c (replace_from old new O s')
      end
  end.

(** For an empty [old] Python puts [new] before every character and at
    the end. *)
Fixpoint intersperse (new s : string) : string :=
  match s with
  | EmptyString => new
  | String c s' => new ++ String c (intersperse new s')
  end.

Definition replace (old new s : string) : string :=
  match old with
  | EmptyString => intersperse new s
  | _ => replace_from old new O s
  end.

(** ** Text-mode reading *)

(** Universal newlines: a carriage return followed by a line feed, and a
    carriage return alone, are read as one line feed. *)
Fixpoint universal_newlines (s : string) : string :=
  match s with
  | EmptyString => EmptyString
  | String c s' =>
      if Ascii.eqb c CR then
        match s' with
        | String c2 s'' =>
            if Ascii.eqb c2 LF then String LF (universal_newlines s'')
            else String LF (universal_newlines s')
        | EmptyString => String LF EmptyString
        end
      else String c (universal_newlines s')
  end.

(** [for line in f]: the lines of the text, each with its line feed; a
    last line without one is yielded as it is. *)
Fixpoint readlines (s : string) : list string :=
  match s with
  | EmptyString => []
  | String c s' =>
      if Ascii.eqb c LF then String LF EmptyString :: readlines s'
      else match readlines s' with
           | [] => [String c EmptyString]
           | line :: lines => String c line :: lines
           end
  end.

Definition file_lines (text : string) : list string :=
  readlines (universal_newlines text).

(** ** Integers as text *)

(** [str(n)] and [f"{n}"] for an [int]: decimal digits, a minus sign for
    negatives. *)
Definition str_int (n : Z) : string := NilZero.string_of_int (Z.to_int n).

Definition digit_value (c : ascii) : option Z :=
  if code_between 48 57 c then Some (Z.of_N (N_of_ascii c) - 48) else None.

(** The digits of an [int()] literal: decimal digits, with single
    underscores allowed between two digits.  [after_digit] tells whether
    the previous character was a digit. *)
Fixpoint int_digits (s : string) (acc : Z) (after_digit : bool) : option Z :=
  match s with
  | EmptyString => if after_digit then Some acc else None
  | String c s' =>
      match digit_value c with
      | Some d => int_digits s' (10 * acc + d) true
      | None =>
          if Ascii.eqb c "_" && after_digit then int_digits s' acc false
          else None
      end
  end.

(** [int(s)]: [None] stands for [ValueError]. *)
Definition int_of_str (s : string) : option Z :=
  match rstrip int_space (lstrip int_space s) with
  | String "-" ds => option_map Z.opp (int_digits ds 0 false)
  | String "+" ds => int_digits ds 0 false
  | ds => int_digits ds 0 false
  end.

(* ================================================================== *)
(** * Priority *)
(* ================================================================== *)

Inductive Priority : Type := LOW | MEDIUM | HIGH.

(** [Priority.value] *)
Definition value (p : Priority) : string :=
  match p with
  | LOW => "low"
  | MEDIUM => "medium"
  | HIGH => "high"
  end.

(** [v in {...}] for a set of strings. *)
Definition in_set (v : string) (set : list string) : bool :=
  existsb (String.eqb v) set.

(** [Priority.from_str]; [None] is Python's [None]. *)
Definition from_str (value : option string) : Priority :=
  match value with
  | None => MEDIUM
  | Some EmptyString => MEDIUM
  | Some s =>
      let v := lower (strip s) in
      if in_set v ["l"; "low"] then LOW
      else if in_set v ["m"; "med"; "medium"] then MEDIUM
      else if in_set v ["h"; "hi"; "high"] then HIGH
      else MEDIUM
  end.

(* ================================================================== *)
(** * Task *)
(* ================================================================== *)

Record Task : Type := mkTask {
  id : Z;
  description : string;
  due_date : option string;
  completed : bool;
  priority : Priority
}.

(** [Task.mark_completed] *)
Definition mark_completed (t : Task) : Task :=
  mkTask (id t) (description t) (due_date t) true (priority t).

(* ================================================================== *)
(** * The record codec: the bodies of the two loops of FileTaskStorage *)
(* ================================================================== *)

(** The escape token: backslash, u, 0, 0, 2, C. *)
Definition ESCAPE : string := "\u002C".

(** [f"{x}"] for an optional string and for a bool. *)
Definition str_optional (d : option string) : string :=
  match d with
  | None => "None"
  | Some s => s
  end.

Definition str_bool (b : bool) : string := if b then "True" else "False".

(** The body of the loop of [save_tasks]: the text written for one task. *)
Definition encode (t : Task) : string :=
  let desc := replace "," ESCAPE (description t) in
  str_int (id t) ++ "," ++ desc ++ "," ++ str_optional (due_date t) ++ ","
  ++ str_bool (completed t) ++ "," ++ value (priority t) ++ String LF "".

(** The body of the loop of [load_tasks]: [None] is a skipped line, either
    by [continue] on the number of fields or by the caught [ValueError]
    of [int]. *)
Definition decode (line : string) : option Task :=
  let parts := split COMMA (rstrip (Ascii.eqb LF) line) in
  let n := List.length parts in
  if negb ((n =? 4)%nat || (n =? 5)%nat) then None
  else
    match int_of_str (nth 0 parts "") with
    | None => None
    | Some task_id =>
        let description := replace ESCAPE "," (nth 1 parts "") in
        let due_date :=
          match nth 2 parts "" with
          | EmptyString => None
          | d => Some d
          end in
        let due_date :=
          match due_date with
          | Some d => if String.eqb d "None" then None else Some d
          | None => None
          end in
        let completed := String.eqb (lower (strip (nth 3 parts ""))) "true" in
        let priority :=
          if (n =? 5)%nat then from_str (Some (nth 4 parts "")) else MEDIUM in
        Some (mkTask task_id description due_date completed priority)
    end.

(* ================================================================== *)
(** * TaskStorage: the abstract storage interface *)
(* ================================================================== *)

Inductive exn : Type := OSError.

(** What a call does: it returns a value or raises. *)
Inductive result (A : Type) : Type :=
  | Returned (a : A)
  | Raised (e : exn).
Arguments Returned {A} a.
Arguments Raised {A} e.

(** The two abstract methods; [S] is the state of the underlying medium,
    which a save may change. *)
Class TaskStorage (S : Type) : Type := {
  load_tasks : S -> result (list Task);
  save_tasks : list Task -> S -> S * result unit
}.

(* ================================================================== *)
(** * FileTaskStorage *)
(* ================================================================== *)

(** What is at the path [filename]:
    - nothing, at a place where a file can be created;
    - nothing, at a place where no file can be created (the directory is
      missing or cannot be written);
    - a text file that can be read and written;
    - a text file that can be read and not written;
    - something that exists and cannot be opened as a file (a directory,
      say). *)
Inductive medium : Type :=
  | Missing
  | Uncreatable
  | Stored (text : string)
  | ReadOnly (text : string)
  | Unopenable.

(** The storage object with the state of its path; [saved] records the
    text of every completed [save_tasks], the latest first. *)
Record FileTaskStorage : Type := mkStorage {
  file : medium;
  saved : list string
}.

(** The loop of [load_tasks] over the lines, appending to [loaded]. *)
Fixpoint load_loop (lines : list string) (loaded : list Task) : list Task :=
  match lines with
  | [] => loaded
  | line :: rest =>
      match decode line with
      | None => load_loop rest loaded
      | Some t => load_loop rest (loaded ++ [t])
      end
  end.

(** [FileTaskStorage.load_tasks]: nothing at the path is a fresh start;
    what is there is opened for reading. *)
Definition file_load_tasks (st : FileTaskStorage) : result (list Task) :=
  match file st with
  | Missing | Uncreatable => Returned []
  | Stored text | ReadOnly text => Returned (load_loop (file_lines text) [])
  | Unopenable => Raised OSError
  end.

(** The loop of [save_tasks], writing after what is in the file so far. *)
Fixpoint save_loop (tasks : list Task) (written : string) : string :=
  match tasks with
  | [] => written
  | t :: rest => save_loop rest (written ++ encode t)
  end.

(** [FileTaskStorage.save_tasks]: the path is opened for writing, which
    creates the file or empties it, and raises where that cannot be done. *)
Definition file_save_tasks (tasks : list Task) (st : FileTaskStorage)
  : FileTaskStorage * result unit :=
  match file st with
  | Missing | Stored _ =>
      let text := save_loop tasks "" in
      (mkStorage (Stored text) (text :: saved st), Returned tt)
  | Uncreatable | ReadOnly _ | Unopenable => (st, Raised OSError)
  end.

#[export] Instance FileTaskStorage_TaskStorage : TaskStorage FileTaskStorage := {
  load_tasks := file_load_tasks;
  save_tasks := file_save_tasks
}.

(* ================================================================== *)
(** * TaskManager *)
(* ================================================================== *)

(** The manager over a storage of any kind. *)
Record TaskManager (S : Type) : Type := mkManager {
  storage : S;
  tasks : list Task;
  next_id : Z
}.
Arguments mkManager {S} storage tasks next_id.
Arguments storage {S} t.
Arguments tasks {S} t.
Arguments next_id {S} t.

(** [max(xs, default=d)] *)
Definition max_default (xs : list Z) (d : Z) : Z :=
  match xs with
  | [] => d
  | x :: rest => fold_left Z.max rest x
  end.

(** The priority [add_task] can be given: a [Priority], a string, or
    [None]. *)
Inductive priority_arg : Type :=
  | AsPriority (p : Priority)
  | AsStr (s : string)
  | AsNone.

(** The place in the list of the first task with the id: where the
    object that [get_task_by_id] returns lives. *)
Fixpoint position (task_id : Z) (ts : list Task) : option nat :=
  match ts with
  | [] => None
  | t :: rest =>
      if id t =? task_id then Some O
      else option_map S (position task_id rest)
  end.

(** A method call on the object at place [i] of a list: the list holds
    the object, so the list sees the change. *)
Fixpoint update_at (i : nat) (f : Task -> Task) (ts : list Task) : list Task :=
  match ts, i with
  | [], _ => []
  | t :: rest, O => f t :: rest
  | t :: rest, S j => t :: update_at j f rest
  end.

(** A call of a session. *)
Inductive call : Type :=
  | Add (description : string) (due_date : option string) (priority : priority_arg)
  | Complete (task_id : Z)
  | Remove (task_id : Z).

Section Manager.

Context {Store : Type} {port : TaskStorage Store}.

(** [TaskManager.__init__] *)
Definition init (st : Store) : result (TaskManager Store) :=
  match load_tasks st with
  | Raised e => Raised e
  | Returned loaded =>
      Returned (mkManager st loaded (max_default (map id loaded) 0 + 1))
  end.

(** A method of the manager: it runs on the object, may change it, and
    returns or raises; what it changed before raising stays changed. *)
Definition method (A : Type) : Type :=
  TaskManager Store -> TaskManager Store * result A.

Definition ret {A} (a : A) : method A := fun m => (m, Returned a).

Definition bind {A B} (c : method A) (k : A -> method B) : method B :=
  fun m =>
    match c m with
    | (m', Returned a) => k a m'
    | (m', Raised e) => (m', Raised e)
    end.

Notation "x <- c ;; k" := (bind c (fun x => k))
  (at level 61, c at next level, right associativity).
Notation "c ;;; k" := (bind c (fun _ => k))
  (at level 61, right associativity).

Definition get_tasks : method (list Task) := fun m => (m, Returned (tasks m)).
Definition get_next_id : method Z := fun m => (m, Returned (next_id m)).
Definition set_tasks (ts : list Task) : method unit :=
  fun m => (mkManager (storage m) ts (next_id m), Returned tt).
Definition set_next_id (n : Z) : method unit :=
  fun m => (mkManager (storage m) (tasks m) n, Returned tt).

(** [self.storage.save_tasks(self.tasks)] *)
Definition save_self : method unit :=
  fun m =>
    let (st', r) := save_tasks (tasks m) (storage m) in
    (mkManager st' (tasks m) (next_id m), r).

Definition add_task (description : string) (due_date : option string)
    (priority : priority_arg) : method Task :=
  let pr :=
    match priority with
    | AsPriority p => p
    | AsStr s => from_str (Some s)
    | AsNone => from_str None
    end in
  n <- get_next_id ;;
  let task := mkTask n description due_date false pr in
  ts <- get_tasks ;;
  set_tasks (ts ++ [task]) ;;;
  set_next_id (n + 1) ;;;
  save_self ;;;
  ret task.

Definition list_tasks : method (list Task) := get_tasks.

(** [get_task_by_id]: the first task with the id. *)
Definition get_task_by_id (task_id : Z) : method (option Task) :=
  ts <- get_tasks ;;
  ret (find (fun t => id t =? task_id) ts).

(** [mark_task_completed]: the task found is an object of the list, the
    first with the id, and it is changed where it is; [position] finds
    the place of the task that [get_task_by_id] found, so its [None] does
    not occur after a [Some]. *)
Definition mark_task_completed (task_id : Z) : method bool :=
  task <- get_task_by_id task_id ;;
  match task with
  | None => ret false
  | Some _ =>
      ts <- get_tasks ;;
      match position task_id ts with
      | None => ret false
      | Some i =>
          set_tasks (update_at i mark_completed ts) ;;;
          save_self ;;;
          ret true
      end
  end.

Definition remove_task (task_id : Z) : method bool :=
  old <- get_tasks ;;
  let before := List.length old in
  set_tasks (filter (fun t => negb (id t =? task_id)) old) ;;;
  now <- get_tasks ;;
  if (List.length now =? before)%nat then ret false
  else
    save_self ;;;
    ret true.

(** ** A session: calls on one manager, one after the other *)

(** One call; with the new state, the id of the task an [Add] returned. *)
Definition perform (c : call) (m : TaskManager Store)
  : TaskManager Store * list Z :=
  match c with
  | Add d due p =>
      match add_task d due p m with
      | (m', Returned t) => (m', [id t])
      | (m', Raised _) => (m', [])
      end
  | Complete i => (fst (mark_task_completed i m), [])
  | Remove i => (fst (remove_task i m), [])
  end.

(** The calls in order; with the last state, the ids assigned, in order. *)
Fixpoint session (cs : list call) (m : TaskManager Store)
  : TaskManager Store * list Z :=
  match cs with
  | [] => (m, [])
  | c :: rest =>
      let (m1, ids1) := perform c m in
      let (m2, ids2) := session rest m1 in
      (m2, (ids1 ++ ids2)%list)
  end.

End Manager.

Definition sample_store : FileTaskStorage :=
  mkStorage (Stored ("3,Pay rent,2024-08-01,False,high" ++ String LF ""
                     ++ "7,Call" ++ ESCAPE ++ " then write,None,True"
                     ++ String CR (String LF "")
                     ++ "2,Walk,,true,L" ++ String LF "")) [].


(* ================================================================== *)
(** * Predicates of the statements *)
(* ================================================================== *)

(** Text without a line break. *)
Definition one_line (s : string) : bool :=
  negb (has_char LF s) && negb (has_char CR s).

(** A due date the codec gives back as it was: absent, or a text that is
    not empty, is not the word None, and has no comma. *)
Definition codable_due_date (d : option string) : bool :=
  match d with
  | None => true
  | Some s =>
      negb (String.eqb s "") && negb (String.eqb s "None")
      && negb (has_char COMMA s)
  end.

(** A task the codec gives back as it was: its description does not
    contain the escape token, and its due date is as above. *)
Definition codable (t : Task) : bool :=
  negb (occurs ESCAPE (description t)) && codable_due_date (due_date t).

(** A task whose record is one line of the file: no line break in its
    description or in its due date. *)
Definition on_one_line (t : Task) : bool :=
  one_line (description t) && one_line (str_optional (due_date t)).

(** A task the file gives back as it was. *)
Definition storable (t : Task) : bool := codable t && on_one_line t.

(** The persisted file holds exactly what a save of the list writes. *)
Definition consistent (m : TaskManager FileTaskStorage) : Prop :=
  file (storage m) = Stored (save_loop (tasks m) "").

(** A method ran one full save of the list it leaves: the file holds the
    text of that list and the record of saves grew by that one text. *)
Definition saved_once (m m' : TaskManager FileTaskStorage) : Prop :=
  consistent m'
  /\ saved (storage m') = save_loop (tasks m') "" :: saved (storage m).

(** The path can be opened for writing: a file that can be written is
    there, or nothing is and a file can be created. *)
Definition openable (st : FileTaskStorage) : bool :=
  match file st with
  | Missing | Stored _ => true
  | Uncreatable | ReadOnly _ | Unopenable => false
  end.

(** The name given to a priority by the lenient mapping, after trimming
    and lowering the case. *)
Definition keyword (s : string) : string := lower (strip s).

(** Every id in the list is below the next id to assign. *)
Definition ids_below_next {S : Type} (m : TaskManager S) : Prop :=
  Forall (fun i => i < next_id m) (map id (tasks m)).

(* ================================================================== *)
(** * Definitions of the proofs *)
(* ================================================================== *)

(** The number of times a character occurs in a text. *)
Fixpoint count_char (c : ascii) (s : string) : nat :=
  match s with
  | EmptyString => O
  | String b s' => ((if Ascii.eqb b c then 1 else 0) + count_char c s')%nat
  end.

(** Every character of the text passes the test. *)
Fixpoint all_chars (p : ascii -> bool) (s : string) : bool :=
  match s with
  | EmptyString => true
  | String c s' => p c && all_chars p s'
  end.

(** The two uses of [replace] in the codec: on the description that is
    written, and on the field that is read. *)
Definition escape (s : string) : string := replace "," ESCAPE s.
Definition unescape (s : string) : string := replace ESCAPE "," s.

(** The characters of [str(n)]. *)
Definition sign_or_digit (c : ascii) : bool :=
  Ascii.eqb c "-" || code_between 48 57 c.

(** The five fields [save_tasks] writes for a task. *)
Definition fields_of (t : Task) : list string :=
  [str_int (id t); escape (description t); str_optional (due_date t);
   str_bool (completed t); value (priority t)].

(** [sep.join(fields)] for a separator of one character. *)
Fixpoint join (sep : ascii) (fields : list string) : string :=
  match fields with
  | [] => ""
  | [a] => a
  | a :: rest => a ++ String sep (join sep rest)
  end.

(** The [parts] of a line in [load_tasks]. *)
Definition fields_in (line : string) : list string :=
  split COMMA (rstrip (Ascii.eqb LF) line).

(** The text of a list of tasks, record after record. *)
Fixpoint text_of (ts : list Task) : string :=
  match ts with
  | [] => ""
  | t :: rest => encode t ++ text_of rest
  end.

(** The tasks of the lines that decode, in the order of the lines. *)
Fixpoint decoded (lines : list string) : list Task :=
  match lines with
  | [] => []
  | line :: rest =>
      match decode line with
      | Some t => t :: decoded rest
      | None => decoded rest
      end
  end.

(** The priority [add_task] gives the new task. *)
Definition chosen (p : priority_arg) : Priority :=
  match p with
  | AsPriority p => p
  | AsStr s => from_str (Some s)
  | AsNone => from_str None
  end.

(** What a method returns after a save that returned or raised. *)
Definition after_save {A} (r : result unit) (a : A) : result A :=
  match r with
  | Returned _ => Returned a
  | Raised e => Raised e
  end.

(** The list [remove_task] keeps. *)
Definition without (task_id : Z) (ts : list Task) : list Task :=
  filter (fun t => negb (id t =? task_id)) ts.

(** A keyword of one priority is not a keyword of another. *)
Ltac other_keyword H :=
  let K := fresh "K" in
  intros K; cbn [In] in H, K;
  repeat (destruct H as [H|H]; [rewrite <- H in K; intuition discriminate|]);
  exact H.

(** The task with its description replaced. *)
Definition with_description (t : Task) (d : string) : Task :=
  mkTask (id t) d (due_date t) (completed t) (priority t).

(** What a call, or a run of calls, keeps and what it hands out: the ids
    in the list stay below the next id, the next id does not go down, the
    ids assigned lie between the old and the new next id and increase, and
    unique ids stay unique. *)
Definition step_ok {S : Type} (m m' : TaskManager S) (ids : list Z) : Prop :=
  ids_below_next m'
  /\ next_id m <= next_id m'
  /\ Forall (fun i => next_id m <= i < next_id m') ids
  /\ StronglySorted Z.lt ids
  /\ (NoDup (map id (tasks m)) -> NoDup (map id (tasks m'))).

(* ================================================================== *)
(** * Task.__str__ and the demo script *)
(* ================================================================== *)

(** [Task.__str__]: the due date is shown when it is a non-empty string. *)
Definition str_task (t : Task) : string :=
  let status := if completed t then "/" else " " in
  let due :=
    match due_date t with
    | Some (String _ _ as d) => " (Due: " ++ d ++ ")"
    | _ => ""
    end in
  "[" ++ status ++ "] " ++ str_int (id t) ++ ". " ++ description t ++ due
  ++ " [Priority: " ++ value (priority t) ++ "]".

Section Demo.

Context {Store : Type} {port : TaskStorage Store}.

Notation "x <- c ;; k" := (bind c (fun x => k))
  (at level 61, c at next level, right associativity).
Notation "c ;;; k" := (bind c (fun _ => k))
  (at level 61, right associativity).

(** The three [add_task] calls of the demo. *)
Definition seed : @method Store unit :=
  add_task "Review SOLID Principles" (Some "2024-08-10") (AsStr "high") ;;;
  add_task "Prepare for Final Exam" (Some "2024-08-15") (AsStr "medium") ;;;
  add_task "Do laundry" None (AsStr "low") ;;;
  ret tt.

(** The demo after the manager is built; it returns the lines that the
    two listings print, one line per task. *)
Definition script : @method Store (list string * list string) :=
  ts <- list_tasks ;;
  match ts with
  | [] => seed
  | _ => ret tt
  end ;;;
  before <- list_tasks ;;
  mark_task_completed 1 ;;;
  after <- list_tasks ;;
  ret (map str_task before, map str_task after).

(** The program: the manager is built on the storage and the demo runs;
    what is left when the process ends is the storage. *)
Definition main (st : Store) : Store * result (list string * list string) :=
  match init st with
  | Raised e => (st, Raised e)
  | Returned m => let (m', r) := script m in (storage m', r)
  end.

End Demo.

(* ================================================================== *)
(** * Definitions of the further properties *)
(* ================================================================== *)

(** The due date [load_tasks] reads from the third field. *)
Definition due_of (field : string) : option string :=
  match field with
  | EmptyString => None
  | d => if String.eqb d "None" then None else Some d
  end.

(** The description [load_tasks] gives back for a description that was
    saved. *)
Definition reread (d : string) : string := unescape (escape d).

(** The task that a saved record is read as. *)
Definition read_back (t : Task) : Task :=
  mkTask (id t) (reread (description t)) (due_of (str_optional (due_date t)))
    (completed t) (priority t).

(** The three tasks the demo adds to an empty list. *)
Definition seeded : list Task :=
  [mkTask 1 "Review SOLID Principles" (Some "2024-08-10") false HIGH;
   mkTask 2 "Prepare for Final Exam" (Some "2024-08-15") false MEDIUM;
   mkTask 3 "Do laundry" None false LOW].

(** The list the demo works on: the loaded one, or the three tasks. *)
Definition demo_list (loaded : list Task) : list Task :=
  match loaded with
  | [] => seeded
  | _ => loaded
  end.

(** A call that adds nothing the file could not give back. *)
Definition storable_call (c : call) : bool :=
  match c with
  | Add d due _ => storable (mkTask 0 d due false MEDIUM)
  | _ => true
  end.

(** The file loads as the list in memory. *)
Definition loads_as_list (m : TaskManager FileTaskStorage) : Prop :=
  load_tasks (storage m) = Returned (tasks m).

(** [t] is [t0] at a later time: the same task, completed if [t0] was. *)
Definition later (t0 t : Task) : Prop :=
  id t = id t0 /\ description t = description t0
  /\ due_date t = due_date t0 /\ priority t = priority t0
  /\ (completed t0 = true -> completed t = true).

(** The list with the first task of the id completed, if there is one. *)
Definition completed_at (task_id : Z) (ts : list Task) : list Task :=
  match position task_id ts with
  | Some i => update_at i mark_completed ts
  | None => ts
  end.

(* ================================================================== *)
(** * Sample runs of the definitions *)
(* ================================================================== *)

Example int_of_str_samples :
  map int_of_str ["12"; " -7" ++ String LF ""; "+5"; "007"; "1_000"; "-0"]
  = [Some 12; Some (-7); Some 5; Some 7; Some 1000; Some 0]
  /\ map int_of_str [""; " "; "+ 5"; "--5"; "_1"; "1_"; "1__0"; "1 2"; "0x1"; "-"; "abc"]
     = [None; None; None; None; None; None; None; None; None; None; None].
Proof. split; reflexivity. Qed.

Example text_samples :
  split COMMA "a,b,," = ["a"; "b"; ""; ""]
  /\ split COMMA "" = [""]
  /\ replace "aa" "b" "aaa" = "ba"
  /\ replace "" "X" "a,b" = "XaX,XbX"
  /\ replace "," "\u002C" "a,b" = "a\u002Cb"
  /\ replace "\u002C" "," "a\u002Cb\u002C" = "a,b,"
  /\ String.length "\u002C" = 6%nat
  /\ file_lines ("a" ++ String CR (String LF "b") ++ String CR "c" ++ String LF "")
     = ["a" ++ String LF ""; "b" ++ String LF ""; "c" ++ String LF ""]
  /\ strip "  Hi  " = "Hi"
  /\ lower "HiGh" = "high"
  /\ map str_int [0; -12; 340] = ["0"; "-12"; "340"].
Proof. repeat split; reflexivity. Qed.

Example load_sample :
  load_tasks sample_store
  = Returned [mkTask 3 "Pay rent" (Some "2024-08-01") false HIGH;
              mkTask 7 "Call, then write" None true MEDIUM;
              mkTask 2 "Walk" None true LOW].
Proof. reflexivity. Qed.

(* ================================================================== *)
(** * Facts on the text primitives *)
(* ================================================================== *)

Lemma append_assoc (a b c : string) : (a ++ b) ++ c = a ++ (b ++ c).
Proof. induction a as [|x a IH]; simpl; [reflexivity | now rewrite IH]. Qed.

Lemma append_empty_r (a : string) : a ++ "" = a.
Proof. induction a as [|x a IH]; simpl; [reflexivity | now rewrite IH]. Qed.

Lemma has_char_app (c : ascii) (a b : string) :
  has_char c (a ++ b) = has_char c a || has_char c b.
Proof.
  induction a as [|x a IH]; simpl; [reflexivity|].
  rewrite IH. now rewrite orb_assoc.
Qed.

(** ** split *)

Lemma split_single (sep : ascii) (a : string) :
  has_char sep a = false -> split sep a = [a].
Proof.
  induction a as [|c a IH]; simpl; intros H; [reflexivity|].
  apply orb_false_elim in H as [Hc Ha].
  rewrite Hc, (IH Ha). reflexivity.
Qed.

Lemma split_field (sep : ascii) (a rest : string) :
  has_char sep a = false ->
  split sep (a ++ String sep rest) = a :: split sep rest.
Proof.
  induction a as [|c a IH]; simpl; intros H.
  - now rewrite Ascii.eqb_refl.
  - apply orb_false_elim in H as [Hc Ha].
    rewrite Hc, (IH Ha). reflexivity.
Qed.

Lemma split_length (sep : ascii) (s : string) :
  List.length (split sep s) = S (count_char sep s).
Proof.
  induction s as [|c s IH]; simpl; [reflexivity|].
  destruct (Ascii.eqb c sep); simpl.
  - now rewrite IH.
  - destruct (split sep s) eqn:E; simpl in *; [discriminate | exact IH].
Qed.

(** ** rstrip, lstrip *)

Lemma rstrip_app_keep (p : ascii -> bool) (a b : string) :
  rstrip p b <> "" -> rstrip p (a ++ b) = a ++ rstrip p b.
Proof.
  intros Hb. induction a as [|c a IH]; simpl; [reflexivity|].
  rewrite IH. destruct (a ++ rstrip p b) eqn:E; [|reflexivity].
  destruct a; simpl in E; [contradiction | discriminate].
Qed.

Lemma rstrip_none (p : ascii -> bool) (s : string) :
  all_chars (fun c => negb (p c)) s = true -> rstrip p s = s.
Proof.
  induction s as [|c s IH]; simpl; intros H; [reflexivity|].
  apply andb_prop in H as [Hc Hs]. rewrite (IH Hs).
  destruct s; [|reflexivity].
  apply negb_true_iff in Hc. now rewrite Hc.
Qed.

Lemma lstrip_all_none (p : ascii -> bool) (s : string) :
  all_chars (fun c => negb (p c)) s = true -> lstrip p s = s.
Proof.
  destruct s as [|c s]; simpl; intros H; [reflexivity|].
  apply andb_prop in H as [Hc _]. apply negb_true_iff in Hc. now rewrite Hc.
Qed.

Lemma all_chars_weaken (p q : ascii -> bool) (s : string) :
  (forall c, p c = true -> q c = true) ->
  all_chars p s = true -> all_chars q s = true.
Proof.
  intros Hpq. induction s as [|c s IH]; simpl; [reflexivity|].
  intros H. apply andb_prop in H as [Hc Hs].
  now rewrite (Hpq _ Hc), (IH Hs).
Qed.

Lemma all_chars_has_char (p : ascii -> bool) (c : ascii) (s : string) :
  p c = false -> all_chars p s = true -> has_char c s = false.
Proof.
  intros Hc. induction s as [|b s IH]; simpl; [reflexivity|].
  intros H. apply andb_prop in H as [Hb Hs]. rewrite (IH Hs), orb_false_r.
  destruct (Ascii.eqb_spec b c) as [->|]; [congruence | reflexivity].
Qed.

(** ** Reading lines *)

Lemma universal_newlines_id (s : string) :
  has_char CR s = false -> universal_newlines s = s.
Proof.
  induction s as [|c s IH]; simpl; intros H; [reflexivity|].
  apply orb_false_elim in H as [Hc Hs].
  rewrite Hc, (IH Hs). reflexivity.
Qed.

Lemma readlines_line (a rest : string) :
  has_char LF a = false ->
  readlines (a ++ String LF rest) = (a ++ String LF "") :: readlines rest.
Proof.
  induction a as [|c a IH]; simpl; intros H; [reflexivity|].
  apply orb_false_elim in H as [Hc Ha].
  rewrite Hc, (IH Ha). reflexivity.
Qed.

(** ** replace: escaping the comma and putting it back *)

Lemma escape_empty : escape "" = "".
Proof. reflexivity. Qed.

Lemma escape_cons (c : ascii) (s : string) :
  escape (String c s)
  = if Ascii.eqb c COMMA then ESCAPE ++ escape s else String c (escape s).
Proof.
  unfold escape, replace. cbn [replace_from startswith].
  rewrite andb_true_r, (Ascii.eqb_sym ","%char c). reflexivity.
Qed.

Lemma startswith_cons (a b : ascii) (p s : string) :
  startswith (String a p) (String b s) = Ascii.eqb a b && startswith p s.
Proof. reflexivity. Qed.

Lemma unescape_token (s : string) : unescape (ESCAPE ++ s) = String COMMA (unescape s).
Proof.
  unfold unescape, replace, ESCAPE. reflexivity.
Qed.

Lemma unescape_other (c : ascii) (s : string) :
  startswith ESCAPE (String c s) = false ->
  unescape (String c s) = String c (unescape s).
Proof.
  intros H. unfold unescape, replace.
  change (replace_from ESCAPE "," 0 (String c s))
    with (if startswith ESCAPE (String c s)
          then "," ++ replace_from ESCAPE "," (Nat.pred (String.length ESCAPE)) s
          else String c (replace_from ESCAPE "," 0 s)).
  rewrite H. destruct s; reflexivity.
Qed.

(** A text that holds neither a comma nor a backslash starts an escaped
    text exactly when it starts the text itself. *)
Lemma startswith_escape (p s : string) :
  has_char COMMA p = false -> has_char "\"%char p = false ->
  startswith p (escape s) = startswith p s.
Proof.
  revert s. induction p as [|a p IH]; intros s Hc Hb; [now destruct s; destruct (escape _)|].
  simpl in Hc, Hb.
  apply orb_false_elim in Hc as [Hac Hpc].
  apply orb_false_elim in Hb as [Hab Hpb].
  destruct s as [|c s]; [reflexivity|].
  rewrite escape_cons.
  destruct (Ascii.eqb_spec c COMMA) as [->|Hne].
  - unfold ESCAPE. simpl. now rewrite Hab, Hac.
  - simpl. now rewrite IH.
Qed.

Lemma unescape_escape (s : string) :
  occurs ESCAPE s = false -> unescape (escape s) = s.
Proof.
  induction s as [|c s IH]; intros H; [reflexivity|].
  cbn [occurs] in H. apply orb_false_elim in H as [Hhere Hlater].
  rewrite escape_cons.
  destruct (Ascii.eqb_spec c COMMA) as [->|Hne].
  - rewrite unescape_token, (IH Hlater). reflexivity.
  - rewrite unescape_other, (IH Hlater); [reflexivity|].
    change ESCAPE with (String "\" "u002C") in *.
    rewrite startswith_cons in *.
    destruct ("\" =? c)%char; [|reflexivity].
    rewrite andb_true_l in *.
    rewrite startswith_escape by reflexivity. exact Hhere.
Qed.

Lemma has_char_escape (c : ascii) (s : string) :
  Ascii.eqb c COMMA = false -> has_char c ESCAPE = false ->
  has_char c (escape s) = has_char c s.
Proof.
  intros Hc He. induction s as [|b s IH]; [reflexivity|].
  rewrite escape_cons.
  destruct (Ascii.eqb_spec b COMMA) as [->|Hne].
  - rewrite has_char_app, He, IH. cbn [has_char].
    rewrite (Ascii.eqb_sym COMMA c), Hc. reflexivity.
  - cbn [has_char]. now rewrite IH.
Qed.

Lemma escape_no_comma (s : string) : has_char COMMA (escape s) = false.
Proof.
  induction s as [|b s IH]; [reflexivity|].
  rewrite escape_cons.
  destruct (Ascii.eqb_spec b COMMA) as [->|Hne].
  - now rewrite has_char_app, IH.
  - simpl. rewrite IH, orb_false_r. now apply Ascii.eqb_neq.
Qed.

(** An escaped text holds no comma, so escaping it again changes nothing. *)
Lemma escape_fixed (s : string) : has_char COMMA s = false -> escape s = s.
Proof.
  induction s as [|b s IH]; [reflexivity|].
  simpl. intros H. apply orb_false_elim in H as [Hb Hs].
  rewrite escape_cons, Hb, (IH Hs). reflexivity.
Qed.

Lemma escape_idempotent (s : string) : escape (escape s) = escape s.
Proof. apply escape_fixed, escape_no_comma. Qed.

(** ** Integers as text: [int(str(n))] is [n] *)

Lemma uint_text_digits (d : Decimal.uint) :
  all_chars (code_between 48 57) (NilEmpty.string_of_uint d) = true.
Proof. induction d; simpl; auto. Qed.

Lemma str_int_chars (n : Z) : all_chars sign_or_digit (str_int n) = true.
Proof.
  assert (U : forall d, all_chars sign_or_digit (NilZero.string_of_uint d) = true).
  { intros d. apply all_chars_weaken with (p := code_between 48 57).
    - intros c H. unfold sign_or_digit. rewrite H. apply orb_true_r.
    - destruct d; try apply (uint_text_digits (_ _)); reflexivity. }
  unfold str_int. destruct (Z.to_int n); simpl; [apply U|].
  rewrite U. reflexivity.
Qed.

Lemma sign_or_digit_not (p : ascii -> bool) :
  (forall c, sign_or_digit c = true -> p c = false) ->
  forall n, all_chars (fun c => negb (p c)) (str_int n) = true.
Proof.
  intros H n. apply all_chars_weaken with (p := sign_or_digit).
  - intros c Hc. now rewrite (H c Hc).
  - apply str_int_chars.
Qed.

Lemma sign_or_digit_cases (c : ascii) :
  sign_or_digit c = true ->
  int_space c = false /\ isspace c = false /\ Ascii.eqb c COMMA = false
  /\ Ascii.eqb c LF = false /\ Ascii.eqb c CR = false.
Proof.
  destruct c as [[|] [|] [|] [|] [|] [|] [|] [|]]; vm_compute;
    intros H; try discriminate H; repeat split.
Qed.

Lemma str_int_no (c : ascii) (n : Z) :
  sign_or_digit c = false -> has_char c (str_int n) = false.
Proof. intros H. exact (all_chars_has_char _ _ _ H (str_int_chars n)). Qed.

Lemma int_digits_acc (d : Decimal.uint) (acc : positive) :
  int_digits (NilEmpty.string_of_uint d) (Z.pos acc) true
  = Some (Z.pos (Pos.of_uint_acc d acc)).
Proof.
  revert acc. induction d; intros acc; cbn [NilEmpty.string_of_uint int_digits Pos.of_uint_acc];
    [reflexivity | ..];
    match goal with
    | |- context [digit_value ?c] =>
        let v := eval vm_compute in (digit_value c) in
        change (digit_value c) with v; cbv iota beta
    end;
    rewrite <- IHd; f_equal; lia.
Qed.

Lemma int_digits_uint (d : Decimal.uint) (b : bool) :
  d <> Decimal.Nil \/ b = true ->
  int_digits (NilEmpty.string_of_uint d) 0 b = Some (Z.of_uint d).
Proof.
  revert b. induction d; intros b H;
    cbn [NilEmpty.string_of_uint int_digits].
  - destruct H as [H| ->]; [now elim H | reflexivity].
  - change (digit_value "0") with (Some 0). cbv iota beta.
    change (10 * 0 + 0) with 0.
    rewrite (IHd true) by now right. reflexivity.
  - change (digit_value "1") with (Some 1); cbv iota beta; exact (int_digits_acc d 1).
  - change (digit_value "2") with (Some 2); cbv iota beta; exact (int_digits_acc d 2).
  - change (digit_value "3") with (Some 3); cbv iota beta; exact (int_digits_acc d 3).
  - change (digit_value "4") with (Some 4); cbv iota beta; exact (int_digits_acc d 4).
  - change (digit_value "5") with (Some 5); cbv iota beta; exact (int_digits_acc d 5).
  - change (digit_value "6") with (Some 6); cbv iota beta; exact (int_digits_acc d 6).
  - change (digit_value "7") with (Some 7); cbv iota beta; exact (int_digits_acc d 7).
  - change (digit_value "8") with (Some 8); cbv iota beta; exact (int_digits_acc d 8).
  - change (digit_value "9") with (Some 9); cbv iota beta; exact (int_digits_acc d 9).
Qed.

Lemma int_digits_text (d : Decimal.uint) :
  int_digits (NilZero.string_of_uint d) 0 false = Some (Z.of_uint d).
Proof.
  destruct d; try (apply (int_digits_uint (_ _)); left; discriminate).
  reflexivity.
Qed.

Lemma uint_text_first (d : Decimal.uint) :
  exists c s, NilZero.string_of_uint d = String c s /\ code_between 48 57 c = true.
Proof. destruct d; simpl; eauto. Qed.

Lemma int_of_str_str_int (n : Z) : int_of_str (str_int n) = Some n.
Proof.
  unfold int_of_str.
  rewrite lstrip_all_none, rstrip_none
    by (apply sign_or_digit_not; intros c H; apply sign_or_digit_cases, H).
  rewrite <- (DecimalZ.of_to n) at 2.
  unfold str_int. destruct (Z.to_int n) as [d|d]; cbn [NilZero.string_of_int Z.of_int].
  - pose proof (int_digits_text d) as E.
    destruct (uint_text_first d) as (c & s & Ec & Hc). rewrite Ec in *.
    destruct c as [[|] [|] [|] [|] [|] [|] [|] [|]]; try discriminate Hc; exact E.
  - rewrite int_digits_text. reflexivity.
Qed.

(* ================================================================== *)
(** * The codec *)
(* ================================================================== *)

Lemma encode_join (t : Task) :
  encode t = join COMMA (fields_of t) ++ String LF "".
Proof.
  unfold encode, fields_of, join, escape.
  repeat (rewrite append_assoc; cbn [append]). reflexivity.
Qed.

Lemma split_join (sep : ascii) (fields : list string) :
  fields <> [] ->
  Forall (fun a => has_char sep a = false) fields ->
  split sep (join sep fields) = fields.
Proof.
  induction fields as [|a rest IH]; intros Hne Hall; [now elim Hne|].
  inversion Hall as [|? ? Ha Hrest]; subst.
  destruct rest as [|b rest].
  - now apply split_single.
  - change (join sep (a :: b :: rest)) with (a ++ String sep (join sep (b :: rest))).
    rewrite split_field by exact Ha. f_equal. apply IH; [discriminate | exact Hrest].
Qed.

Lemma has_char_join (c sep : ascii) (fields : list string) :
  Ascii.eqb sep c = false ->
  Forall (fun a => has_char c a = false) fields ->
  has_char c (join sep fields) = false.
Proof.
  intros Hsep. induction fields as [|a rest IH]; intros Hall; [reflexivity|].
  inversion Hall as [|? ? Ha Hrest]; subst.
  destruct rest as [|b rest]; [exact Ha|].
  change (join sep (a :: b :: rest)) with (a ++ String sep (join sep (b :: rest))).
  rewrite has_char_app, Ha. cbn [has_char orb]. rewrite Hsep. now apply IH.
Qed.

Lemma rstrip_cons_keep (p : ascii -> bool) (c : ascii) (s : string) :
  p c = false -> rstrip p (String c s) = String c (rstrip p s).
Proof. intros H. cbn [rstrip]. rewrite H. now destruct (rstrip p s). Qed.

Lemma rstrip_join_last (p : ascii -> bool) (sep : ascii) (fields : list string) (tail : string) :
  p sep = false ->
  rstrip p (last fields "" ++ tail) = last fields "" ->
  last fields "" <> "" ->
  rstrip p (join sep fields ++ tail) = join sep fields.
Proof.
  intros Hsep Hlast Hne. induction fields as [|a rest IH]; [now elim Hne|].
  destruct rest as [|b rest]; [exact Hlast|].
  change (join sep (a :: b :: rest)) with (a ++ String sep (join sep (b :: rest))).
  rewrite append_assoc. cbn [append].
  rewrite rstrip_app_keep; rewrite rstrip_cons_keep by exact Hsep.
  - now rewrite IH.
  - discriminate.
Qed.

Lemma fields_in_encode (t : Task) :
  codable t = true -> fields_in (encode t) = fields_of t.
Proof.
  intros H. apply andb_prop in H as [_ Hdue].
  unfold fields_in. rewrite encode_join.
  rewrite rstrip_join_last.
  - apply split_join; [discriminate|]. unfold fields_of.
    repeat constructor.
    + now apply str_int_no.
    + apply escape_no_comma.
    + destruct (due_date t) as [d|]; [|reflexivity].
      cbn [codable_due_date str_optional] in *.
      apply andb_prop in Hdue as [_ Hcomma].
      now apply negb_true_iff.
    + now destruct (completed t).
    + now destruct (priority t).
  - reflexivity.
  - unfold fields_of. cbn [last]. now destruct (priority t).
  - unfold fields_of. cbn [last]. now destruct (priority t).
Qed.

Lemma from_str_value (p : Priority) : from_str (Some (value p)) = p.
Proof. now destruct p. Qed.

Lemma completed_text (b : bool) : String.eqb (lower (strip (str_bool b))) "true" = b.
Proof. now destruct b. Qed.

Lemma decode_fields (line : string) (f0 f1 f2 f3 f4 : string) (n : Z) :
  fields_in line = [f0; f1; f2; f3; f4] ->
  int_of_str f0 = Some n ->
  decode line
  = Some (mkTask n (unescape f1)
            (match f2 with
             | EmptyString => None
             | d => if String.eqb d "None" then None else Some d
             end)
            (String.eqb (lower (strip f3)) "true")
            (from_str (Some f4))).
Proof.
  intros Hf Hn. unfold decode. fold (fields_in line). rewrite Hf.
  cbn [List.length Nat.eqb orb negb nth]. rewrite Hn.
  unfold unescape. now destruct f2.
Qed.

Lemma decode_encode (t : Task) : codable t = true -> decode (encode t) = Some t.
Proof.
  intros H. pose proof (fields_in_encode t H) as Hf.
  rewrite (decode_fields _ _ _ _ _ _ (id t) Hf (int_of_str_str_int _)).
  apply andb_prop in H as [Hesc Hdue].
  rewrite unescape_escape by now apply negb_true_iff.
  rewrite completed_text, from_str_value.
  destruct t as [i d due c p]; cbn [id description due_date completed priority] in *.
  f_equal. f_equal.
  destruct due as [s|]; [|reflexivity]. cbn [str_optional].
  apply andb_prop in Hdue as [Hdue _].
  apply andb_prop in Hdue as [Hempty Hnone].
  destruct s as [|a s]; [discriminate Hempty|].
  apply negb_true_iff in Hnone. now rewrite Hnone.
Qed.

(* ================================================================== *)
(** * The storage *)
(* ================================================================== *)

Lemma save_loop_text (ts : list Task) (written : string) :
  save_loop ts written = written ++ text_of ts.
Proof.
  revert written. induction ts as [|t rest IH]; intros written; cbn [save_loop text_of].
  - now rewrite append_empty_r.
  - now rewrite IH, append_assoc.
Qed.

Lemma save_loop_start (ts : list Task) : save_loop ts "" = text_of ts.
Proof. apply save_loop_text. Qed.

Lemma load_loop_decoded (lines : list string) (loaded : list Task) :
  load_loop lines loaded = (loaded ++ decoded lines)%list.
Proof.
  revert loaded. induction lines as [|line rest IH]; intros loaded;
    cbn [load_loop decoded].
  - now rewrite app_nil_r.
  - destruct (decode line) as [t|]; rewrite IH; [|reflexivity].
    now rewrite <- app_assoc.
Qed.

Lemma decoded_app (l1 l2 : list string) :
  decoded (l1 ++ l2) = (decoded l1 ++ decoded l2)%list.
Proof.
  induction l1 as [|line rest IH]; cbn [decoded app]; [reflexivity|].
  destruct (decode line); rewrite IH; reflexivity.
Qed.

Lemma decoded_encode (ts : list Task) :
  forallb codable ts = true -> decoded (map encode ts) = ts.
Proof.
  induction ts as [|t rest IH]; cbn [forallb map decoded]; intros H; [reflexivity|].
  apply andb_prop in H as [Ht Hrest].
  now rewrite (decode_encode t Ht), (IH Hrest).
Qed.

(** The record of a task without line break has no carriage return, and
    no line feed but the one that ends it. *)
Lemma record_one_line (t : Task) (c : ascii) :
  on_one_line t = true -> c = LF \/ c = CR ->
  has_char c (join COMMA (fields_of t)) = false.
Proof.
  intros H Hc.
  assert (Hsign : sign_or_digit c = false) by (destruct Hc; subst; reflexivity).
  assert (Hcomma : Ascii.eqb COMMA c = false) by (destruct Hc; subst; reflexivity).
  assert (Hesc : has_char c ESCAPE = false) by (destruct Hc; subst; reflexivity).
  assert (Hline : forall s, one_line s = true -> has_char c s = false).
  { intros s Hs. apply andb_prop in Hs as [Hlf Hcr].
    apply negb_true_iff in Hlf, Hcr. destruct Hc; subst; assumption. }
  apply andb_prop in H as [Hd Hdue].
  apply has_char_join; [exact Hcomma|]. unfold fields_of. repeat constructor.
  - now apply str_int_no.
  - rewrite has_char_escape; [now apply Hline | | exact Hesc].
    now rewrite Ascii.eqb_sym.
  - now apply Hline.
  - destruct (completed t); destruct Hc; subst; reflexivity.
  - destruct (priority t); destruct Hc; subst; reflexivity.
Qed.

Lemma text_of_no_cr (ts : list Task) :
  forallb on_one_line ts = true -> has_char CR (text_of ts) = false.
Proof.
  induction ts as [|t rest IH]; cbn [forallb text_of]; intros H; [reflexivity|].
  apply andb_prop in H as [Ht Hrest].
  rewrite encode_join, !has_char_app, (IH Hrest).
  rewrite (record_one_line t CR Ht) by now right. reflexivity.
Qed.

Lemma readlines_text_of (ts : list Task) :
  forallb on_one_line ts = true -> readlines (text_of ts) = map encode ts.
Proof.
  induction ts as [|t rest IH]; cbn [forallb text_of map]; intros H; [reflexivity|].
  apply andb_prop in H as [Ht Hrest].
  rewrite encode_join, append_assoc. cbn [append].
  rewrite readlines_line by (apply record_one_line; [exact Ht | now left]).
  now rewrite (IH Hrest).
Qed.

Lemma forallb_storable (ts : list Task) :
  forallb storable ts = true ->
  forallb codable ts = true /\ forallb on_one_line ts = true.
Proof.
  induction ts as [|t rest IH]; cbn [forallb]; intros H; [now split|].
  apply andb_prop in H as [Ht Hrest]. apply andb_prop in Ht as [Hc Hl].
  destruct (IH Hrest) as [IHc IHl]. now rewrite Hc, Hl, IHc, IHl.
Qed.

Lemma file_lines_text_of (ts : list Task) :
  forallb on_one_line ts = true -> file_lines (text_of ts) = map encode ts.
Proof.
  intros H. unfold file_lines.
  rewrite universal_newlines_id by now apply text_of_no_cr.
  now apply readlines_text_of.
Qed.

Lemma save_tasks_openable (ts : list Task) (st : FileTaskStorage) :
  openable st = true ->
  save_tasks ts st
  = (mkStorage (Stored (text_of ts)) (text_of ts :: saved st), Returned tt).
Proof.
  unfold openable. cbn [save_tasks FileTaskStorage_TaskStorage].
  unfold file_save_tasks. rewrite save_loop_start.
  destruct (file st); intros H; try discriminate H; reflexivity.
Qed.

Lemma save_tasks_unopenable (ts : list Task) (st : FileTaskStorage) :
  openable st = false -> save_tasks ts st = (st, Raised OSError).
Proof.
  unfold openable. cbn [save_tasks FileTaskStorage_TaskStorage].
  unfold file_save_tasks.
  destruct (file st); intros H; try discriminate H; reflexivity.
Qed.

Lemma load_tasks_stored (text : string) (log : list string) :
  load_tasks (mkStorage (Stored text) log) = Returned (decoded (file_lines text)).
Proof.
  cbn [load_tasks FileTaskStorage_TaskStorage]. unfold file_load_tasks.
  cbn [file]. now rewrite load_loop_decoded.
Qed.

(* ================================================================== *)
(** * The manager *)
(* ================================================================== *)

Section ManagerFacts.

Context {Store : Type} {port : TaskStorage Store}.

Lemma add_task_unfold (d : string) (due : option string) (p : priority_arg)
    (m : TaskManager Store) :
  let task := mkTask (next_id m) d due false (chosen p) in
  let ts := (tasks m ++ [task])%list in
  add_task d due p m
  = (mkManager (fst (save_tasks ts (storage m))) ts (next_id m + 1),
     after_save (snd (save_tasks ts (storage m))) task).
Proof.
  cbv zeta. unfold add_task, bind, get_next_id, get_tasks, set_tasks, set_next_id,
    save_self, ret. cbn [storage tasks next_id].
  fold (chosen p).
  destruct (save_tasks _ (storage m)) as [st' [[]|e]]; reflexivity.
Qed.

Lemma position_find (task_id : Z) (ts : list Task) :
  find (fun t => id t =? task_id) ts
  = match position task_id ts with
    | Some i => nth_error ts i
    | None => None
    end.
Proof.
  induction ts as [|t rest IH]; cbn [find position]; [reflexivity|].
  destruct (id t =? task_id); [reflexivity|].
  rewrite IH. now destruct (position task_id rest).
Qed.

Lemma position_some (task_id : Z) (ts : list Task) (i : nat) :
  position task_id ts = Some i ->
  exists t, nth_error ts i = Some t /\ id t = task_id
            /\ forall j u, (j < i)%nat -> nth_error ts j = Some u -> id u <> task_id.
Proof.
  revert i. induction ts as [|t rest IH]; intros i; cbn [position]; [discriminate|].
  destruct (Z.eqb_spec (id t) task_id) as [E|N].
  - intros [= <-]. exists t. repeat split; [exact E|]. intros j u Hj. lia.
  - destruct (position task_id rest) as [k|]; [|discriminate].
    intros [= <-]. destruct (IH k eq_refl) as (t' & Hn & Hid & Hbefore).
    exists t'. repeat split; [exact Hn | exact Hid |].
    intros [|j] u Hj; cbn [nth_error].
    + now intros [= <-].
    + apply Hbefore. lia.
Qed.

Lemma position_none (task_id : Z) (ts : list Task) :
  position task_id ts = None <-> Forall (fun t => id t <> task_id) ts.
Proof.
  induction ts as [|t rest IH]; cbn [position]; [split; [constructor | reflexivity]|].
  destruct (Z.eqb_spec (id t) task_id) as [E|N].
  - split; [discriminate|]. intros H. inversion H; subst. contradiction.
  - destruct (position task_id rest) as [k|]; split.
    + discriminate.
    + intros H. inversion H as [|? ? _ Hrest]; subst.
      apply IH in Hrest. discriminate.
    + intros _. constructor; [exact N | now apply IH].
    + reflexivity.
Qed.

Lemma mark_task_completed_unfold (task_id : Z) (m : TaskManager Store) :
  mark_task_completed task_id m
  = match position task_id (tasks m) with
    | None => (m, Returned false)
    | Some i =>
        let ts := update_at i mark_completed (tasks m) in
        (mkManager (fst (save_tasks ts (storage m))) ts (next_id m),
         after_save (snd (save_tasks ts (storage m))) true)
    end.
Proof.
  unfold mark_task_completed, get_task_by_id, bind, get_tasks, set_tasks,
    save_self, ret.
  rewrite position_find.
  destruct (position task_id (tasks m)) as [i|] eqn:E; [|reflexivity].
  destruct (position_some _ _ _ E) as (t & Hn & _). rewrite Hn, E.
  cbn [storage tasks next_id].
  destruct (save_tasks _ (storage m)) as [st' [[]|e]]; reflexivity.
Qed.

Lemma without_same_length (task_id : Z) (ts : list Task) :
  List.length (without task_id ts) = List.length ts ->
  without task_id ts = ts.
Proof.
  unfold without. induction ts as [|t rest IH]; cbn [filter]; [reflexivity|].
  destruct (negb (id t =? task_id)); cbn [List.length]; intros H.
  - f_equal. apply IH. lia.
  - pose proof (filter_length_le (fun t => negb (id t =? task_id)) rest). lia.
Qed.

Lemma without_absent (task_id : Z) (ts : list Task) :
  Forall (fun t => id t <> task_id) ts -> without task_id ts = ts.
Proof.
  unfold without. induction 1 as [|t rest Ht _ IH]; cbn [filter]; [reflexivity|].
  apply Z.eqb_neq in Ht. rewrite Ht, IH. reflexivity.
Qed.

Lemma without_present (task_id : Z) (ts : list Task) :
  ~ Forall (fun t => id t <> task_id) ts ->
  List.length (without task_id ts) <> List.length ts.
Proof.
  intros H E. apply H. apply without_same_length in E.
  rewrite <- E. unfold without. apply Forall_forall. intros t Ht.
  apply filter_In in Ht as [_ Ht]. apply negb_true_iff in Ht. now apply Z.eqb_neq.
Qed.

Lemma without_clears (task_id : Z) (ts : list Task) :
  Forall (fun t => id t <> task_id) (without task_id ts).
Proof.
  apply Forall_forall. intros t Ht. unfold without in Ht.
  apply filter_In in Ht as [_ Ht]. apply negb_true_iff in Ht. now apply Z.eqb_neq.
Qed.

Lemma remove_task_unfold (task_id : Z) (m : TaskManager Store) :
  remove_task task_id m
  = let ts := without task_id (tasks m) in
    if (List.length ts =? List.length (tasks m))%nat
    then (m, Returned false)
    else (mkManager (fst (save_tasks ts (storage m))) ts (next_id m),
          after_save (snd (save_tasks ts (storage m))) true).
Proof.
  unfold remove_task, bind, get_tasks, set_tasks, save_self, ret.
  cbn [storage tasks next_id]. fold (without task_id (tasks m)). cbv zeta.
  destruct (Nat.eqb_spec (List.length (without task_id (tasks m)))
              (List.length (tasks m))) as [E|N].
  - rewrite (without_same_length _ _ E). now destruct m.
  - cbn [storage tasks next_id].
    destruct (save_tasks _ (storage m)) as [st' [[]|e]]; reflexivity.
Qed.

End ManagerFacts.

(* ================================================================== *)
(** * Properties of the program *)
(* ================================================================== *)

Lemma in_set_In (v : string) (set : list string) :
  in_set v set = true <-> In v set.
Proof.
  unfold in_set. rewrite existsb_exists. split.
  - intros (x & Hx & E). apply String.eqb_eq in E. now subst.
  - intros H. exists v. split; [exact H | apply String.eqb_refl].
Qed.

Lemma in_set_not_In (v : string) (set : list string) :
  ~ In v set -> in_set v set = false.
Proof.
  intros H. destruct (in_set v set) eqn:E; [|reflexivity].
  apply in_set_In in E. contradiction.
Qed.

Lemma from_str_keyword (s : string) :
  from_str (Some s)
  = if in_set (keyword s) ["l"; "low"] then LOW
    else if in_set (keyword s) ["m"; "med"; "medium"] then MEDIUM
    else if in_set (keyword s) ["h"; "hi"; "high"] then HIGH
    else MEDIUM.
Proof. destruct s; reflexivity. Qed.

Lemma add_task_returns (d : string) (due : option string) (p : priority_arg)
    (m : TaskManager FileTaskStorage) :
  openable (storage m) = true ->
  let task := mkTask (next_id m) d due false (chosen p) in
  let ts := (tasks m ++ [task])%list in
  add_task d due p m
  = (mkManager (mkStorage (Stored (text_of ts)) (text_of ts :: saved (storage m)))
       ts (next_id m + 1),
     Returned task).
Proof.
  intros H. cbv zeta. rewrite add_task_unfold. cbv zeta.
  rewrite save_tasks_openable by exact H. reflexivity.
Qed.

(** C8.  The priority mapping, after trimming and lowering the case, sends
    l and low to low, m, med and medium to medium, h, hi and high to high,
    and every other string, and an absent value, to medium; a task added
    with the priority string HI has priority high, and with bogus has
    priority medium. *)
Theorem priority_lenient_mapping :
  (forall s, In (keyword s) ["l"; "low"] -> from_str (Some s) = LOW)
  /\ (forall s, In (keyword s) ["m"; "med"; "medium"] -> from_str (Some s) = MEDIUM)
  /\ (forall s, In (keyword s) ["h"; "hi"; "high"] -> from_str (Some s) = HIGH)
  /\ (forall s, ~ In (keyword s) ["l"; "low"; "m"; "med"; "medium"; "h"; "hi"; "high"] ->
      from_str (Some s) = MEDIUM)
  /\ from_str None = MEDIUM
  /\ (forall d due m, openable (storage m) = true ->
      exists t m',
        add_task d due (AsStr "HI") m = (m', Returned t)
        /\ priority t = HIGH /\ tasks m' = (tasks m ++ [t])%list)
  /\ (forall d due m, openable (storage m) = true ->
      exists t m',
        add_task d due (AsStr "bogus") m = (m', Returned t)
        /\ priority t = MEDIUM /\ tasks m' = (tasks m ++ [t])%list).
Proof.
  repeat split.
  - intros s H. rewrite from_str_keyword.
    apply in_set_In in H. now rewrite H.
  - intros s H. rewrite from_str_keyword.
    rewrite (in_set_not_In (keyword s) ["l"; "low"]) by other_keyword H.
    apply in_set_In in H. now rewrite H.
  - intros s H. rewrite from_str_keyword.
    rewrite (in_set_not_In (keyword s) ["l"; "low"]) by other_keyword H.
    rewrite (in_set_not_In (keyword s) ["m"; "med"; "medium"]) by other_keyword H.
    apply in_set_In in H. now rewrite H.
  - intros s H. rewrite from_str_keyword.
    rewrite !in_set_not_In; [reflexivity | | |];
      intros K; apply H; cbn [In] in *; intuition.
  - intros d due m H. eexists. eexists.
    rewrite (add_task_returns d due (AsStr "HI") m H).
    repeat split.
  - intros d due m H. eexists. eexists.
    rewrite (add_task_returns d due (AsStr "bogus") m H).
    repeat split.
Qed.

Lemma priority_lenient_mapping_witness :
  from_str (Some "  Low ") = LOW
  /\ from_str (Some "MED") = MEDIUM
  /\ from_str (Some "HI") = HIGH
  /\ from_str (Some "bogus") = MEDIUM
  /\ exists t m',
       add_task "Buy milk" None (AsStr "HI") (mkManager (mkStorage Missing []) [] 1)
       = (m', Returned t) /\ priority t = HIGH /\ tasks m' = [t].
Proof.
  destruct priority_lenient_mapping as (Hl & Hm & Hh & Ho & _ & Hadd & _).
  split; [apply Hl; vm_compute; auto|].
  split; [apply Hm; vm_compute; auto|].
  split; [apply Hh; vm_compute; auto|].
  split; [apply Ho; vm_compute; intuition discriminate|].
  apply Hadd. reflexivity.
Defined.

Lemma has_char_comma_escape_differs (d : string) :
  has_char COMMA d = true -> escape d <> d.
Proof.
  intros H E. pose proof (escape_no_comma d) as N. rewrite E in N. congruence.
Qed.

(** C9.  The escaping of the comma is not injective: the task whose
    description is one comma and the task whose description is the six
    characters of the escape token are written as the same line, which
    decodes to the first; in general a task and the task with its
    description escaped beforehand are written alike, because encoding
    escapes only commas and decoding turns every escape token into a
    comma. *)
Theorem escape_not_injective :
  (exists t1 t2,
      description t1 = "," /\ description t2 = ESCAPE /\ t1 <> t2
      /\ decode (encode t1) = decode (encode t2)
      /\ decode (encode t1) = Some t1)
  /\ (forall t, has_char COMMA (description t) = true ->
      with_description t (escape (description t)) <> t
      /\ encode (with_description t (escape (description t))) = encode t)
  /\ (forall s, unescape (ESCAPE ++ s) = "," ++ unescape s).
Proof.
  split; [|split].
  - exists (mkTask 1 "," None false MEDIUM), (mkTask 1 ESCAPE None false MEDIUM).
    repeat split; try reflexivity. discriminate.
  - intros t H. split.
    + intros E. apply (has_char_comma_escape_differs _ H).
      now apply (f_equal description) in E.
    + unfold encode, with_description. cbn [id description due_date completed priority].
      fold (escape (description t)). fold (escape (escape (description t))).
      now rewrite escape_idempotent.
  - intros s. apply unescape_token.
Qed.

Lemma escape_not_injective_witness :
  let t := mkTask 5 "eggs, milk" (Some "2024-08-10") false LOW in
  with_description t (escape (description t)) <> t
  /\ encode (with_description t (escape (description t))) = encode t.
Proof.
  apply (proj1 (proj2 escape_not_injective)). reflexivity.
Defined.

(** C10.  [remove_task] drops every task with the id, not only the first:
    whatever the list, and also when the list holds the id several times,
    no task with the id is left after one call; what is left is the list
    filtered on the id, so the tasks with other ids stay in their order. *)
Theorem remove_task_removes_every_match {Store : Type} {port : TaskStorage Store}
    (task_id : Z) (m : TaskManager Store) :
  let m' := fst (remove_task task_id m) in
  Forall (fun t => id t <> task_id) (tasks m')
  /\ tasks m' = filter (fun t => negb (id t =? task_id)) (tasks m).
Proof.
  cbv zeta.
  assert (E : tasks (fst (remove_task task_id m)) = without task_id (tasks m)).
  { rewrite remove_task_unfold. cbv zeta.
    destruct (Nat.eqb_spec (List.length (without task_id (tasks m)))
                (List.length (tasks m))) as [L|L]; cbn [fst tasks].
    - now rewrite (without_same_length _ _ L).
    - reflexivity. }
  rewrite E. split; [apply without_clears | reflexivity].
Qed.

(** A list with one id twice does come out of the backing file, and one
    [remove_task] clears it. *)
Example remove_task_loaded_twice :
  let st := mkStorage (Stored ("4,first,None,False,low" ++ String LF ""
                               ++ "9,other,None,False,low" ++ String LF ""
                               ++ "4,second,None,True,high" ++ String LF "")) [] in
  exists m m',
    init st = Returned m
    /\ map id (tasks m) = [4; 9; 4]
    /\ remove_task 4 m = (m', Returned true)
    /\ map id (tasks m') = [9].
Proof.
  cbv zeta. eexists. eexists.
  split; [reflexivity|]. split; [reflexivity|]. split; cbv; reflexivity.
Qed.

(** C7.  Against a backing file that does not exist, the load returns the
    empty list and the manager starts with no task and next id 1; nothing
    is raised and nothing is written. *)
Theorem init_missing_file (log : list string) :
  load_tasks (mkStorage Missing log) = Returned []
  /\ init (mkStorage Missing log)
     = Returned (mkManager (mkStorage Missing log) [] 1).
Proof. split; reflexivity. Qed.

Lemma decode_accepted (line : string) :
  (exists t, decode line = Some t)
  <-> ((List.length (fields_in line) = 4%nat \/ List.length (fields_in line) = 5%nat)
       /\ exists n, int_of_str (nth 0 (fields_in line) "") = Some n).
Proof.
  unfold decode. fold (fields_in line).
  set (parts := fields_in line). set (n := List.length parts).
  split.
  - intros (t & H).
    destruct ((n =? 4)%nat || (n =? 5)%nat) eqn:En; [|discriminate H].
    cbn [negb] in H. split.
    + apply orb_prop in En as [E|E]; apply Nat.eqb_eq in E; auto.
    + destruct (int_of_str (nth 0 parts "")) as [k|]; [eauto | discriminate H].
  - intros (Hn & k & Hk).
    assert (En : (n =? 4)%nat || (n =? 5)%nat = true).
    { destruct Hn as [E|E]; rewrite E; reflexivity. }
    rewrite En, Hk. cbn [negb]. eauto.
Qed.

(** An accepted line has 3 or 4 commas. *)
Lemma decode_comma_count (line : string) (t : Task) :
  decode line = Some t ->
  let commas := count_char COMMA (rstrip (Ascii.eqb LF) line) in
  commas = 3%nat \/ commas = 4%nat.
Proof.
  intros H. assert (A : exists t, decode line = Some t) by eauto.
  apply decode_accepted in A as [L _]. unfold fields_in in L.
  rewrite split_length in L. cbv zeta. lia.
Qed.

Lemma decode_two_fields (line : string) :
  List.length (fields_in line) = 2%nat -> decode line = None.
Proof.
  intros H. destruct (decode line) as [t|] eqn:E; [|reflexivity].
  assert (A : exists t, decode line = Some t) by eauto.
  apply decode_accepted in A as [[L|L] _]; rewrite H in L; discriminate L.
Qed.

(** C6.  A stored line is accepted exactly when it splits at the commas
    into 4 or 5 fields and [int] accepts its first field; every other line
    is skipped and the load goes on with the lines after it, without
    raising; a file with one well-formed line and one line of 2 fields
    loads exactly one task. *)
Theorem load_skips_malformed_lines :
  (forall line,
      (exists t, decode line = Some t)
      <-> ((List.length (fields_in line) = 4%nat
            \/ List.length (fields_in line) = 5%nat)
           /\ exists n, int_of_str (nth 0 (fields_in line) "") = Some n))
  /\ (forall text log,
      load_tasks (mkStorage (Stored text) log) = Returned (decoded (file_lines text)))
  /\ (forall before line after,
      decode line = None ->
      load_loop (before ++ line :: after) []
      = (load_loop before [] ++ load_loop after [])%list)
  /\ (forall good bad t,
      decode good = Some t -> List.length (fields_in bad) = 2%nat ->
      load_loop [good; bad] [] = [t] /\ load_loop [bad; good] [] = [t])
  /\ load_tasks (mkStorage (Stored ("1,Buy milk,None,False,low" ++ String LF ""
                                    ++ "oops,2 fields" ++ String LF "")) [])
     = Returned [mkTask 1 "Buy milk" None false LOW].
Proof.
  split; [exact decode_accepted|].
  split; [exact load_tasks_stored|].
  split; [|split; [|reflexivity]].
  - intros before line after H.
    rewrite !load_loop_decoded, decoded_app. cbn [app decoded]. now rewrite H.
  - intros good bad t Hg Hb. apply decode_two_fields in Hb.
    cbn [load_loop]. rewrite Hg, Hb. cbn [load_loop]. split; reflexivity.
Qed.

Lemma load_skips_malformed_lines_witness :
  load_loop ["7,Walk,None,True,high"; "oops,2 fields"] []
  = [mkTask 7 "Walk" None true HIGH]
  /\ load_loop ["oops,2 fields"; "7,Walk,None,True,high"] []
     = [mkTask 7 "Walk" None true HIGH].
Proof.
  apply (proj1 (proj2 (proj2 (proj2 load_skips_malformed_lines)))); reflexivity.
Defined.

(** What [int] refuses in the first field is skipped too, whatever the
    number of fields. *)
Example load_skips_bad_id :
  load_tasks (mkStorage (Stored ("x1,Walk,None,True,high" ++ String LF ""
                                 ++ "2,Run,,False" ++ String LF ""
                                 ++ ",Swim,,False,low" ++ String LF "")) [])
  = Returned [mkTask 2 "Run" None false MEDIUM].
Proof. reflexivity. Qed.

Lemma reload (ts : list Task) (st : FileTaskStorage) :
  forallb storable ts = true -> openable st = true ->
  load_tasks (fst (save_tasks ts st)) = Returned ts.
Proof.
  intros Hts Hst. apply forallb_storable in Hts as [Hc Hl].
  rewrite save_tasks_openable by exact Hst. cbn [fst].
  rewrite load_tasks_stored, file_lines_text_of by exact Hl.
  now rewrite decoded_encode.
Qed.

(** C1, as stated, fails: a description with a comma that also holds the
    six characters of the escape token comes back with a comma in place of
    the token. *)
Lemma roundtrip_fails_on_escape_token :
  let t := mkTask 1 ("a,b" ++ ESCAPE ++ "c") None false MEDIUM in
  has_char COMMA (description t) = true
  /\ decode (encode t) = Some (mkTask 1 "a,b,c" None false MEDIUM)
  /\ decode (encode t) <> Some t.
Proof. cbv zeta. repeat split. discriminate. Qed.

(** C1, amended.  For any task whose description contains the comma and
    does not contain the escape token, and whose due date is absent or a
    non-empty text other than None without comma, decoding the encoded
    text gives the task back exactly: id, description with its commas,
    due date, completed flag and priority.  When moreover neither the
    description nor the due date has a line break, so that the encoded
    text is one line of the file, loading a file in which the task was
    saved gives it back too. *)
Theorem codec_roundtrip (t : Task) :
  has_char COMMA (description t) = true ->
  codable t = true ->
  decode (encode t) = Some t
  /\ (on_one_line t = true ->
      forall st, openable st = true ->
        load_tasks (fst (save_tasks [t] st)) = Returned [t]).
Proof.
  intros _ H. split; [now apply decode_encode|].
  intros Hl st Hst. apply reload; [|exact Hst].
  cbn [forallb]. unfold storable. now rewrite H, Hl.
Qed.

Lemma codec_roundtrip_witness :
  let t := mkTask 12 "eggs, milk, tea" (Some "2024-08-10") true HIGH in
  decode (encode t) = Some t
  /\ load_tasks (fst (save_tasks [t] (mkStorage Missing []))) = Returned [t].
Proof.
  cbv zeta.
  destruct (codec_roundtrip
              (mkTask 12 "eggs, milk, tea" (Some "2024-08-10") true HIGH)
              eq_refl eq_refl) as [Hline Hfile].
  split; [exact Hline|].
  apply Hfile; reflexivity.
Defined.

(** Each condition of [codable] is needed for the line to decode to the
    task, also for a description with a comma. *)
Example codable_conditions_needed :
  decode (encode (mkTask 1 ("x," ++ ESCAPE) None false LOW))
  = Some (mkTask 1 "x,," None false LOW)
  /\ decode (encode (mkTask 1 "x,y" (Some "") false LOW))
     = Some (mkTask 1 "x,y" None false LOW)
  /\ decode (encode (mkTask 1 "x,y" (Some "None") false LOW))
     = Some (mkTask 1 "x,y" None false LOW)
  /\ decode (encode (mkTask 1 "x,y" (Some "10 Aug, 2024") false LOW)) = None.
Proof. repeat split. Qed.

(** Each condition of [on_one_line] is needed for the file to give the
    task back: the line decodes, the file does not. *)
Example on_one_line_conditions_needed :
  let reloaded t := load_tasks (fst (save_tasks [t] (mkStorage Missing []))) in
  let t1 := mkTask 1 ("x,y" ++ String LF "z") None false LOW in
  let t2 := mkTask 1 ("x,y" ++ String CR "z") None false LOW in
  let t3 := mkTask 1 "x,y" (Some ("soon" ++ String LF "")) false LOW in
  let t4 := mkTask 1 "x,y" (Some ("so" ++ String CR "on")) false LOW in
  (decode (encode t1) = Some t1 /\ reloaded t1 = Returned [])
  /\ (decode (encode t2) = Some t2 /\ reloaded t2 = Returned [])
  /\ (decode (encode t3) = Some t3 /\ reloaded t3 = Returned [])
  /\ (decode (encode t4) = Some t4 /\ reloaded t4 = Returned []).
Proof. cbv zeta. repeat split. Qed.

(** C3, as stated, fails: a description with a line break is written on
    two lines, neither of which decodes, so the task is lost on reload. *)
Lemma reload_fails_on_line_break :
  let ts := [mkTask 1 ("milk" ++ String LF "eggs") None false LOW;
             mkTask 2 "Walk" None false MEDIUM] in
  let st := fst (save_tasks ts (mkStorage Missing [])) in
  load_tasks st = Returned [mkTask 2 "Walk" None false MEDIUM]
  /\ load_tasks st <> Returned ts.
Proof. cbv zeta. split; [reflexivity | discriminate]. Qed.

(** C3, amended.  For any list of tasks whose descriptions hold neither
    the escape token nor a line break and whose due dates are absent or
    non-empty texts other than None without comma or line break, a save
    to a file that can be opened returns, writes one record per line in
    the order of the list, and loading the file back gives a list equal
    to the original, element by element and in the same order. *)
Theorem save_then_load (ts : list Task) (st : FileTaskStorage) :
  forallb storable ts = true -> openable st = true ->
  snd (save_tasks ts st) = Returned tt
  /\ (exists text, file (fst (save_tasks ts st)) = Stored text
                   /\ file_lines text = map encode ts)
  /\ load_tasks (fst (save_tasks ts st)) = Returned ts.
Proof.
  intros Hts Hst. split; [|split].
  - now rewrite save_tasks_openable.
  - exists (text_of ts). rewrite save_tasks_openable by exact Hst.
    split; [reflexivity | apply file_lines_text_of, (forallb_storable ts Hts)].
  - now apply reload.
Qed.

Lemma save_then_load_witness :
  let ts := [mkTask 3 "Pay rent, then the bills" (Some "2024-08-01") false HIGH;
             mkTask 7 "Call" None true MEDIUM;
             mkTask 2 "" (Some "tomorrow") false LOW] in
  let st := mkStorage (Stored "old text") [] in
  snd (save_tasks ts st) = Returned tt
  /\ (exists text, file (fst (save_tasks ts st)) = Stored text
                   /\ file_lines text = map encode ts)
  /\ load_tasks (fst (save_tasks ts st)) = Returned ts.
Proof.
  exact (save_then_load
           [mkTask 3 "Pay rent, then the bills" (Some "2024-08-01") false HIGH;
            mkTask 7 "Call" None true MEDIUM;
            mkTask 2 "" (Some "tomorrow") false LOW]
           (mkStorage (Stored "old text") []) eq_refl eq_refl).
Defined.

(** ** Saving after a change, and not saving without one *)

Lemma save_tasks_returned (ts : list Task) (st : FileTaskStorage) (u : unit) :
  snd (save_tasks ts st) = Returned u -> openable st = true.
Proof.
  cbn [save_tasks FileTaskStorage_TaskStorage].
  unfold file_save_tasks, openable.
  destruct (file st); cbn [snd]; intros H; try discriminate H; reflexivity.
Qed.

Lemma after_save_returned {A} (r : result unit) (a b : A) :
  after_save r a = Returned b -> a = b /\ exists u, r = Returned u.
Proof. destruct r as [u|e]; cbn [after_save]; [intros [= <-]; eauto | discriminate]. Qed.

Lemma saved_once_after (m : TaskManager FileTaskStorage) (ts : list Task) (n : Z) :
  openable (storage m) = true ->
  saved_once m (mkManager (fst (save_tasks ts (storage m))) ts n).
Proof.
  intros H. rewrite save_tasks_openable by exact H.
  unfold saved_once, consistent. cbn [fst storage tasks file saved].
  rewrite save_loop_start. split; reflexivity.
Qed.

Lemma absent_iff (task_id : Z) (ts : list Task) :
  Forall (fun t => id t <> task_id) ts <-> ~ In task_id (map id ts).
Proof.
  rewrite Forall_forall, in_map_iff. split.
  - intros H (t & E & Ht). exact (H t Ht E).
  - intros H t Ht E. apply H. eauto.
Qed.

Lemma position_present (task_id : Z) (ts : list Task) :
  In task_id (map id ts) -> exists i, position task_id ts = Some i.
Proof.
  intros H. destruct (position task_id ts) as [i|] eqn:E; [eauto|].
  apply position_none, absent_iff in E. contradiction.
Qed.

Lemma update_at_same (f : Task -> Task) (ts : list Task) (i : nat) :
  nth_error (update_at i f ts) i = option_map f (nth_error ts i).
Proof.
  revert i. induction ts as [|t rest IH]; intros [|i]; cbn; auto.
Qed.

Lemma update_at_other (f : Task -> Task) (ts : list Task) (i j : nat) :
  j <> i -> nth_error (update_at i f ts) j = nth_error ts j.
Proof.
  revert i j. induction ts as [|t rest IH]; intros [|i] [|j] H; cbn; auto.
  now elim H.
Qed.

Lemma update_at_ids (ts : list Task) (i : nat) :
  map id (update_at i mark_completed ts) = map id ts.
Proof.
  revert i. induction ts as [|t rest IH]; intros [|i]; cbn; auto.
  now rewrite IH.
Qed.

(** C2.  Each changing method that returns has run one full save of the
    list it leaves: after [add_task] returns, and after
    [mark_task_completed] and [remove_task] return true, the file holds
    exactly the text of the list in memory; and on a file that can be
    opened these methods do return, the last two for an id in the list. *)
Theorem save_after_every_write (m : TaskManager FileTaskStorage) :
  (forall d due p m' t, add_task d due p m = (m', Returned t) -> saved_once m m')
  /\ (forall i m', mark_task_completed i m = (m', Returned true) -> saved_once m m')
  /\ (forall i m', remove_task i m = (m', Returned true) -> saved_once m m')
  /\ (openable (storage m) = true ->
      (forall d due p, exists m' t, add_task d due p m = (m', Returned t))
      /\ (forall i, In i (map id (tasks m)) ->
            exists m', mark_task_completed i m = (m', Returned true))
      /\ (forall i, In i (map id (tasks m)) ->
            exists m', remove_task i m = (m', Returned true))).
Proof.
  split; [|split; [|split]].
  - intros d due p m' t. rewrite add_task_unfold. cbv zeta.
    intros [= <- H]. apply after_save_returned in H as (_ & u & H).
    apply saved_once_after. exact (save_tasks_returned _ _ _ H).
  - intros i m'. rewrite mark_task_completed_unfold.
    destruct (position i (tasks m)) as [k|]; [|discriminate]. cbv zeta.
    intros [= <- H]. apply after_save_returned in H as (_ & u & H).
    apply saved_once_after. exact (save_tasks_returned _ _ _ H).
  - intros i m'. rewrite remove_task_unfold. cbv zeta.
    destruct (List.length (without i (tasks m)) =? List.length (tasks m))%nat;
      [discriminate|].
    intros [= <- H]. apply after_save_returned in H as (_ & u & H).
    apply saved_once_after. exact (save_tasks_returned _ _ _ H).
  - intros Hst. split; [|split].
    + intros d due p. rewrite add_task_returns by exact Hst. eauto.
    + intros i Hi. rewrite mark_task_completed_unfold.
      destruct (position_present _ _ Hi) as (k & ->). cbv zeta.
      rewrite save_tasks_openable by exact Hst. eauto.
    + intros i Hi. rewrite remove_task_unfold. cbv zeta.
      destruct (Nat.eqb_spec (List.length (without i (tasks m)))
                  (List.length (tasks m))) as [L|L].
      * exfalso. revert L. apply without_present.
        intros A. apply absent_iff in A. contradiction.
      * rewrite save_tasks_openable by exact Hst. eauto.
Qed.

Lemma save_after_every_write_witness :
  let m := mkManager (mkStorage Missing [])
             [mkTask 1 "Buy milk" None false LOW; mkTask 2 "Walk" None false HIGH] 3 in
  saved_once m (fst (add_task "Call" None AsNone m))
  /\ saved_once m (fst (mark_task_completed 2 m))
  /\ saved_once m (fst (remove_task 1 m)).
Proof.
  cbv zeta.
  destruct (save_after_every_write
              (mkManager (mkStorage Missing [])
                 [mkTask 1 "Buy milk" None false LOW; mkTask 2 "Walk" None false HIGH] 3))
    as (Hadd & Hmark & Hremove & _).
  split; [|split].
  - apply (Hadd "Call" None AsNone _ (mkTask 3 "Call" None false MEDIUM)). reflexivity.
  - apply (Hmark 2). reflexivity.
  - apply (Hremove 1). reflexivity.
Defined.

(** C5.  For an id that is not in the list, [mark_task_completed] and
    [remove_task] return false and leave the manager as it was: the list,
    the file and the record of saves are unchanged.  For an id in the list
    and a file that can be opened, [mark_task_completed] sets the
    completed flag of the first task with the id, changes no other task,
    saves the list once and returns true, and [remove_task] takes the id
    out of the list, saves the list once and returns true. *)
Theorem absent_id_is_no_op (task_id : Z) (m : TaskManager FileTaskStorage) :
  (~ In task_id (map id (tasks m)) ->
     mark_task_completed task_id m = (m, Returned false)
     /\ remove_task task_id m = (m, Returned false))
  /\ (In task_id (map id (tasks m)) -> openable (storage m) = true ->
      (exists m' i t,
          mark_task_completed task_id m = (m', Returned true)
          /\ position task_id (tasks m) = Some i
          /\ nth_error (tasks m) i = Some t /\ id t = task_id
          /\ nth_error (tasks m') i = Some (mark_completed t)
          /\ completed (mark_completed t) = true
          /\ (forall j, j <> i -> nth_error (tasks m') j = nth_error (tasks m) j)
          /\ List.length (tasks m') = List.length (tasks m)
          /\ saved_once m m')
      /\ (exists m',
          remove_task task_id m = (m', Returned true)
          /\ tasks m' = filter (fun t => negb (id t =? task_id)) (tasks m)
          /\ ~ In task_id (map id (tasks m'))
          /\ saved_once m m')).
Proof.
  split.
  - intros H. apply absent_iff in H. split.
    + rewrite mark_task_completed_unfold.
      apply position_none in H. now rewrite H.
    + rewrite remove_task_unfold. cbv zeta.
      rewrite (without_absent _ _ H). now rewrite Nat.eqb_refl.
  - intros Hin Hst. split.
    + destruct (position_present _ _ Hin) as (i & Hi).
      destruct (position_some _ _ _ Hi) as (t & Ht & Hid & _).
      eexists. exists i, t.
      rewrite mark_task_completed_unfold, Hi. cbv zeta.
      rewrite save_tasks_openable by exact Hst. cbn [fst snd after_save].
      split; [reflexivity|]. cbn [tasks].
      repeat split; try assumption.
      * now rewrite update_at_same, Ht.
      * intros j Hj. now apply update_at_other.
      * rewrite <- (length_map id), update_at_ids. apply length_map.
      * unfold consistent. cbn [storage tasks file]. now rewrite save_loop_start.
      * cbn [storage tasks saved]. now rewrite save_loop_start.
    + eexists. rewrite remove_task_unfold. cbv zeta.
      destruct (Nat.eqb_spec (List.length (without task_id (tasks m)))
                  (List.length (tasks m))) as [L|L].
      * exfalso. revert L. apply without_present.
        intros A. apply absent_iff in A. contradiction.
      * rewrite save_tasks_openable by exact Hst. cbn [fst snd after_save].
        split; [reflexivity|]. cbn [tasks].
        split; [reflexivity|]. split.
        -- apply absent_iff, without_clears.
        -- unfold saved_once, consistent. cbn [storage tasks file saved].
           rewrite save_loop_start. split; reflexivity.
Qed.

Lemma absent_id_is_no_op_witness :
  let m := mkManager (mkStorage (Stored "1,Buy milk,None,False,low") ["earlier"])
             [mkTask 1 "Buy milk" None false LOW] 2 in
  (mark_task_completed 5 m = (m, Returned false)
   /\ remove_task 5 m = (m, Returned false))
  /\ (exists m',
        remove_task 1 m = (m', Returned true)
        /\ tasks m' = filter (fun t => negb (id t =? 1)) (tasks m)
        /\ ~ In 1 (map id (tasks m'))
        /\ saved_once m m').
Proof.
  cbv zeta. split.
  - apply (absent_id_is_no_op 5
             (mkManager (mkStorage (Stored "1,Buy milk,None,False,low") ["earlier"])
                [mkTask 1 "Buy milk" None false LOW] 2)).
    cbn. intros [H|H]; [discriminate H | exact H].
  - apply (absent_id_is_no_op 1
             (mkManager (mkStorage (Stored "1,Buy milk,None,False,low") ["earlier"])
                [mkTask 1 "Buy milk" None false LOW] 2)).
    + cbn. left. reflexivity.
    + reflexivity.
Defined.

(** With the id twice in the list, [mark_task_completed] completes the
    first task with it only. *)
Example mark_task_completed_first_only :
  tasks (fst (mark_task_completed 4
                (mkManager (mkStorage Missing [])
                   [mkTask 4 "a" None false LOW; mkTask 4 "b" None false LOW] 5)))
  = [mkTask 4 "a" None true LOW; mkTask 4 "b" None false LOW].
Proof. reflexivity. Qed.

(** On a path that cannot be opened [add_task] raises: the condition on
    the file in the statements above is needed. *)
Lemma add_task_unopenable (d : string) (due : option string) (p : priority_arg)
    (m : TaskManager FileTaskStorage) :
  openable (storage m) = false -> snd (add_task d due p m) = Raised OSError.
Proof.
  intros H. rewrite add_task_unfold. cbv zeta. cbn [snd].
  now rewrite save_tasks_unopenable.
Qed.

(** What the method did before the save stays done: the task is in the
    list, the next id moved. *)
Example add_task_raises :
  add_task "Walk" None AsNone (mkManager (mkStorage Unopenable []) [] 1)
  = (mkManager (mkStorage Unopenable []) [mkTask 1 "Walk" None false MEDIUM] 2,
     Raised OSError).
Proof. reflexivity. Qed.

(** ** The ids *)

Section IdFacts.

Context {Store : Type} {port : TaskStorage Store}.

Lemma fold_max_ge (xs : list Z) (x : Z) :
  x <= fold_left Z.max xs x /\ Forall (fun y => y <= fold_left Z.max xs x) xs.
Proof.
  revert x. induction xs as [|y rest IH]; intros x; cbn [fold_left].
  - split; [lia | constructor].
  - destruct (IH (Z.max x y)) as [H1 H2]. split; [lia|].
    constructor; [lia | exact H2].
Qed.

Lemma fold_max_in (xs : list Z) (x : Z) :
  fold_left Z.max xs x = x \/ In (fold_left Z.max xs x) xs.
Proof.
  revert x. induction xs as [|y rest IH]; intros x; cbn [fold_left In]; [now left|].
  destruct (IH (Z.max x y)) as [H|H]; [|now right; right].
  rewrite H. destruct (Z.max_spec x y) as [[_ ->]|[_ ->]]; auto.
Qed.

(** [max_default] is the largest element of a list that has one. *)
Lemma max_default_spec (xs : list Z) (d : Z) :
  xs <> [] ->
  In (max_default xs d) xs /\ Forall (fun y => y <= max_default xs d) xs.
Proof.
  destruct xs as [|x rest]; [intros H; now elim H|]. intros _. cbn [max_default].
  destruct (fold_max_ge rest x) as [H1 H2]. split.
  - destruct (fold_max_in rest x) as [-> | H]; [now left | now right].
  - constructor; assumption.
Qed.

Lemma init_ids_below_next (st : Store) (m : TaskManager Store) :
  init st = Returned m -> ids_below_next m.
Proof.
  unfold init. destruct (load_tasks st) as [loaded|e]; [|discriminate].
  intros [= <-]. unfold ids_below_next. cbn [tasks next_id].
  destruct (map id loaded) as [|x rest] eqn:E; [constructor|].
  rewrite <- E.
  assert (N : map id loaded <> []) by (rewrite E; discriminate).
  destruct (max_default_spec (map id loaded) 0 N) as [_ H].
  revert H. apply Forall_impl. intros y Hy. lia.
Qed.

Lemma without_ids_incl (task_id : Z) (ts : list Task) :
  incl (map id (without task_id ts)) (map id ts).
Proof.
  intros i Hi. apply in_map_iff in Hi as (t & E & Ht).
  apply filter_In in Ht as [Ht _]. apply in_map_iff. eauto.
Qed.

Lemma without_ids_nodup (task_id : Z) (ts : list Task) :
  NoDup (map id ts) -> NoDup (map id (without task_id ts)).
Proof.
  unfold without. induction ts as [|t rest IH]; cbn [map filter]; intros H; [constructor|].
  inversion H as [|? ? Hnot Hrest]; subst.
  destruct (negb (id t =? task_id)); cbn [map]; [|now apply IH].
  constructor; [|now apply IH].
  intros Hin. apply Hnot. exact (without_ids_incl task_id rest _ Hin).
Qed.

Lemma sorted_app (l1 l2 : list Z) :
  StronglySorted Z.lt l1 -> StronglySorted Z.lt l2 ->
  (forall x y, In x l1 -> In y l2 -> x < y) ->
  StronglySorted Z.lt (l1 ++ l2).
Proof.
  intros H1 H2 H. induction H1 as [|x l1 Hl1 IH Hx]; cbn [app]; [exact H2|].
  constructor.
  - apply IH. intros a b Ha Hb. apply H; [now right | exact Hb].
  - apply Forall_app. split; [exact Hx|].
    apply Forall_forall. intros y Hy. apply H; [now left | exact Hy].
Qed.

Lemma perform_ok (c : call) (m : TaskManager Store) :
  ids_below_next m -> step_ok m (fst (perform c m)) (snd (perform c m)).
Proof.
  intros Hm. unfold step_ok, ids_below_next in *. destruct c as [d due p|i|i]; cbn [perform].
  - rewrite add_task_unfold. cbv zeta.
    set (task := mkTask (next_id m) d due false (chosen p)).
    assert (Hids : map id (tasks m ++ [task]) = (map id (tasks m) ++ [next_id m])%list)
      by now rewrite map_app.
    assert (Hbelow : Forall (fun i => i < next_id m + 1) (map id (tasks m ++ [task]))).
    { rewrite Hids. apply Forall_app. split.
      - revert Hm. apply Forall_impl. intros; lia.
      - repeat constructor. lia. }
    assert (Hnodup : NoDup (map id (tasks m)) -> NoDup (map id (tasks m ++ [task]))).
    { intros H. rewrite Hids. apply NoDup_app; [exact H | repeat constructor; auto |].
      intros x Hx [<-|[]]. rewrite Forall_forall in Hm. specialize (Hm _ Hx). lia. }
    destruct (snd (save_tasks (tasks m ++ [task]) (storage m))) as [u|e];
      cbn [after_save fst snd tasks next_id];
      (split; [exact Hbelow|]); (split; [lia|]); (split; [|split; [|exact Hnodup]]);
      repeat constructor; subst task; cbn [id]; lia.
  - rewrite mark_task_completed_unfold.
    destruct (position i (tasks m)) as [k|]; cbv zeta; cbn [fst snd tasks next_id];
      rewrite ?update_at_ids;
      (split; [exact Hm|]); (split; [lia|]); repeat constructor; auto.
  - rewrite remove_task_unfold. cbv zeta.
    destruct (List.length (without i (tasks m)) =? List.length (tasks m))%nat;
      cbn [fst snd tasks next_id].
    + (split; [exact Hm|]); (split; [lia|]); repeat constructor; auto.
    + split.
      * apply Forall_forall. intros x Hx. rewrite Forall_forall in Hm.
        apply Hm. exact (without_ids_incl i (tasks m) _ Hx).
      * (split; [lia|]); (split; [constructor|]); split; [constructor|].
        apply without_ids_nodup.
Qed.

Lemma session_ok (cs : list call) (m : TaskManager Store) :
  ids_below_next m -> step_ok m (fst (session cs m)) (snd (session cs m)).
Proof.
  revert m. induction cs as [|c rest IH]; intros m Hm; cbn [session].
  - unfold step_ok. cbn [fst snd]. repeat split; try constructor; auto; lia.
  - pose proof (perform_ok c m Hm) as H1.
    destruct (perform c m) as [m1 ids1]. cbn [fst snd] in H1.
    destruct H1 as (B1 & N1 & F1 & S1 & D1).
    pose proof (IH m1 B1) as H2.
    destruct (session rest m1) as [m2 ids2]. cbn [fst snd] in *.
    destruct H2 as (B2 & N2 & F2 & S2 & D2).
    unfold step_ok. split; [exact B2|]. split; [lia|]. split; [|split].
    + apply Forall_app. split.
      * revert F1. apply Forall_impl. intros; lia.
      * revert F2. apply Forall_impl. intros; lia.
    + apply sorted_app; [exact S1 | exact S2 |].
      intros x y Hx Hy. rewrite Forall_forall in F1, F2.
      specialize (F1 _ Hx). specialize (F2 _ Hy). lia.
    + auto.
Qed.

Lemma init_unfold (st : Store) (m : TaskManager Store) :
  init st = Returned m ->
  load_tasks st = Returned (tasks m)
  /\ storage m = st
  /\ next_id m = max_default (map id (tasks m)) 0 + 1.
Proof.
  unfold init. destruct (load_tasks st) as [loaded|e] eqn:E; [|discriminate].
  intros [= <-]. cbn [tasks storage next_id]. repeat split.
Qed.

(** After initialization the next id is one more than the largest id
    loaded, or 1. *)
Lemma init_next_id (st : Store) (m : TaskManager Store) :
  init st = Returned m ->
  (tasks m = [] -> next_id m = 1)
  /\ (tasks m <> [] ->
      exists t, In t (tasks m) /\ next_id m = id t + 1
                /\ forall u, In u (tasks m) -> id u <= id t).
Proof.
  intros Hinit. apply init_unfold in Hinit as (_ & _ & Hn). split.
  - intros E. rewrite Hn, E. reflexivity.
  - intros N.
    assert (N' : map id (tasks m) <> [])
      by (destruct (tasks m); [now elim N | discriminate]).
    destruct (max_default_spec (map id (tasks m)) 0 N') as [Hin Hmax].
    apply in_map_iff in Hin as (t & Et & Ht). exists t.
    split; [exact Ht|]. split; [now rewrite Et|].
    intros u Hu. rewrite Forall_forall in Hmax. rewrite Et.
    apply Hmax. now apply in_map.
Qed.

End IdFacts.

(** A file that can be written can still be written after a call. *)
Lemma perform_openable (c : call) (m : TaskManager FileTaskStorage) :
  openable (storage m) = true -> openable (storage (fst (perform c m))) = true.
Proof.
  intros Hm. destruct c as [d due p|i|i]; cbn [perform].
  - now rewrite add_task_returns.
  - rewrite mark_task_completed_unfold.
    destruct (position i (tasks m)); [|exact Hm].
    cbv zeta. now rewrite save_tasks_openable.
  - rewrite remove_task_unfold. cbv zeta.
    destruct (_ =? _)%nat; [exact Hm|].
    now rewrite save_tasks_openable.
Qed.

(** On a file that can be written every call of a session finds a file
    that can be written. *)
Lemma session_openable (m : TaskManager FileTaskStorage) (cs : list call) :
  openable (storage m) = true -> openable (storage (fst (session cs m))) = true.
Proof.
  revert m. induction cs as [|c rest IH]; intros m Hm; cbn [session];
    [exact Hm|].
  pose proof (perform_openable c m Hm) as H1.
  destruct (perform c m) as [m1 ids1]. cbn [fst] in H1.
  specialize (IH m1 H1). now destruct (session rest m1).
Qed.

(** C4.  [__init__] returns exactly when the load returns, with the
    loaded tasks as its list and the storage it was given; the next id is
    then the largest id among the loaded tasks plus 1, or 1 if no task
    was loaded; [add_task] gives the new task the current next id and
    increments it; when the storage loads tasks with the ids 3, 7 and 2,
    the manager built on it has next id 8 and its next [add_task] gives
    the new task the id 8; on the file storage, when the file can be
    written, an [add_task] after the initialization returns the task with
    the next id.  In a session the ids assigned are strictly increasing
    and differ from every loaded id, every id in the list stays below the
    next id, and ids that are unique when loaded stay unique.  All but
    the returning hold for a storage of any kind. *)
Theorem ids_unique_and_increasing {Store : Type} {port : TaskStorage Store} :
  (forall (st : Store) m, init st = Returned m ->
      load_tasks st = Returned (tasks m) /\ storage m = st
      /\ (tasks m = [] -> next_id m = 1)
      /\ (tasks m <> [] ->
          exists t, In t (tasks m) /\ next_id m = id t + 1
                    /\ forall u, In u (tasks m) -> id u <= id t))
  /\ (forall (st : Store) ts, load_tasks st = Returned ts ->
      exists m, init st = Returned m /\ storage m = st /\ tasks m = ts)
  /\ (forall d due p (m : TaskManager Store),
      next_id (fst (add_task d due p m)) = next_id m + 1
      /\ tasks (fst (add_task d due p m))
         = (tasks m ++ [mkTask (next_id m) d due false (chosen p)])%list
      /\ forall t, snd (add_task d due p m) = Returned t -> id t = next_id m)
  /\ (forall (st : Store) ts d due p,
      load_tasks st = Returned ts ->
      (forall i, In i (map id ts) <-> In i [3; 7; 2]) ->
      exists m,
        init st = Returned m /\ tasks m = ts /\ next_id m = 8
        /\ tasks (fst (add_task d due p m))
           = (ts ++ [mkTask 8 d due false (chosen p)])%list
        /\ forall t, snd (add_task d due p m) = Returned t -> id t = 8)
  /\ (forall (st : FileTaskStorage) m d due p,
      init st = Returned m -> openable st = true ->
      exists m' t, add_task d due p m = (m', Returned t) /\ id t = next_id m)
  /\ (forall (st : Store) m cs, init st = Returned m ->
      StronglySorted Z.lt (snd (session cs m))
      /\ Forall (fun i => ~ In i (map id (tasks m))) (snd (session cs m))
      /\ ids_below_next (fst (session cs m))
      /\ (NoDup (map id (tasks m)) ->
          NoDup (map id (tasks (fst (session cs m)))))).
Proof.
  assert (A : forall d due p (m : TaskManager Store),
      next_id (fst (add_task d due p m)) = next_id m + 1
      /\ tasks (fst (add_task d due p m))
         = (tasks m ++ [mkTask (next_id m) d due false (chosen p)])%list
      /\ forall t, snd (add_task d due p m) = Returned t -> id t = next_id m).
  { intros d due p m. rewrite add_task_unfold. cbv zeta. cbn [fst snd next_id tasks].
    repeat split. intros t Ht. apply after_save_returned in Ht as [<- _]. reflexivity. }
  assert (L : forall (st : Store) ts, load_tasks st = Returned ts ->
      init st = Returned (mkManager st ts (max_default (map id ts) 0 + 1))).
  { intros st ts H. unfold init. now rewrite H. }
  split; [|split; [|split; [exact A|split; [|split]]]].
  - intros st m Hinit. destruct (init_unfold st m Hinit) as (Hl & Hs & _).
    split; [exact Hl|]. split; [exact Hs|]. exact (init_next_id st m Hinit).
  - intros st ts H. eexists. split; [exact (L st ts H)|]. now split.
  - intros st ts d due p Hload Hids.
    pose proof (L st ts Hload) as Hinit.
    eexists. split; [exact Hinit|]. split; [reflexivity|].
    set (m := mkManager st ts (max_default (map id ts) 0 + 1)) in *.
    assert (Hn : next_id m = 8).
    { destruct (init_next_id st m Hinit) as [_ Hmax].
      destruct Hmax as (t & Ht & Hn & Hle).
      { cbn [m tasks]. intros E. rewrite E in Hids. apply (proj2 (Hids 7)). cbn. auto. }
      cbn [m tasks] in Ht, Hle.
      assert (H7 : In 7 (map id ts)) by (apply Hids; cbn; auto).
      apply in_map_iff in H7 as (u & Eu & Hu). specialize (Hle u Hu).
      assert (Hid : In (id t) [3; 7; 2]) by (apply Hids; now apply in_map).
      cbn in Hid. lia. }
    split; [exact Hn|]. rewrite <- Hn. split; [apply A | apply A].
  - intros st m d due p Hinit Hopen.
    destruct (init_unfold st m Hinit) as (_ & Hs & _).
    rewrite add_task_returns by now rewrite Hs. cbv zeta.
    eexists. eexists. split; reflexivity.
  - intros st m cs Hinit.
    pose proof (init_ids_below_next st m Hinit) as Hm.
    destruct (session_ok cs m Hm) as (B & _ & F & Hs & D).
    split; [exact Hs|]. split; [|split; [exact B | exact D]].
    revert F. apply Forall_impl. intros i Hi Hin.
    unfold ids_below_next in Hm. rewrite Forall_forall in Hm.
    specialize (Hm i Hin). lia.
Qed.

Lemma ids_unique_and_increasing_witness :
  exists m m' t,
    init sample_store = Returned m
    /\ map id (tasks m) = [3; 7; 2]
    /\ next_id m = 8
    /\ add_task "Water the plants" None (AsStr "low") m = (m', Returned t)
    /\ id t = 8.
Proof.
  destruct (@ids_unique_and_increasing FileTaskStorage _)
    as (_ & _ & _ & Hnext & Hadd & _).
  destruct (Hnext sample_store
              [mkTask 3 "Pay rent" (Some "2024-08-01") false HIGH;
               mkTask 7 "Call, then write" None true MEDIUM;
               mkTask 2 "Walk" None true LOW]
              "Water the plants" None (AsStr "low") eq_refl)
    as (m & Hinit & Hts & Hn & _).
  { intros i. cbn. intuition. }
  destruct (Hadd sample_store m "Water the plants" None (AsStr "low") Hinit eq_refl)
    as (m' & t & Ha & Hid).
  exists m, m', t.
  split; [exact Hinit|]. split; [now rewrite Hts|]. split; [exact Hn|].
  split; [exact Ha | now rewrite Hid].
Defined.

(** The ids assigned in a session on the sample file. *)
Example session_ids_sample :
  exists m,
    init sample_store = Returned m
    /\ snd (session [Add "a" None AsNone; Remove 7; Add "b" None AsNone;
                     Complete 2; Add "c" (Some "soon") (AsPriority HIGH)] m)
       = [8; 9; 10].
Proof. eexists. split; reflexivity. Qed.

(** A file that can be read and not written loads, and then refuses the
    save: the load returning says nothing on the save. *)
Example read_only_file_loads_and_refuses_save :
  let st := mkStorage (ReadOnly ("1,Walk,None,False,low" ++ String LF "")) [] in
  exists m,
    init st = Returned m
    /\ tasks m = [mkTask 1 "Walk" None false LOW]
    /\ add_task "Run" None AsNone m
       = (mkManager st [mkTask 1 "Walk" None false LOW;
                        mkTask 2 "Run" None false MEDIUM] 3,
          Raised OSError).
Proof. cbv zeta. eexists. split; [reflexivity|]. split; reflexivity. Qed.

(** Nothing at the path, at a place where no file can be created, is a
    fresh start for the load and an error for the first save. *)
Example uncreatable_file_starts_fresh_and_refuses_save :
  let st := mkStorage Uncreatable [] in
  init st = Returned (mkManager st [] 1)
  /\ add_task "Run" None AsNone (mkManager st [] 1)
     = (mkManager st [mkTask 1 "Run" None false MEDIUM] 2, Raised OSError).
Proof. cbv zeta. split; reflexivity. Qed.

(* ================================================================== *)
(** * Further properties *)
(* ================================================================== *)

Example main_fresh_start :
  main (mkStorage Missing [])
  = (mkStorage
       (Stored ("1,Review SOLID Principles,2024-08-10,True,high" ++ String LF ""
                ++ "2,Prepare for Final Exam,2024-08-15,False,medium" ++ String LF ""
                ++ "3,Do laundry,None,False,low" ++ String LF ""))
       (saved (fst (main (mkStorage Missing [])))),
     Returned
       (["[ ] 1. Review SOLID Principles (Due: 2024-08-10) [Priority: high]";
         "[ ] 2. Prepare for Final Exam (Due: 2024-08-15) [Priority: medium]";
         "[ ] 3. Do laundry [Priority: low]"],
        ["[/] 1. Review SOLID Principles (Due: 2024-08-10) [Priority: high]";
         "[ ] 2. Prepare for Final Exam (Due: 2024-08-15) [Priority: medium]";
         "[ ] 3. Do laundry [Priority: low]"])).
Proof. reflexivity. Qed.

(** ** What unescaping gives *)

Lemma string_length_ind (P : string -> Prop) :
  (forall s, (forall r, (String.length r < String.length s)%nat -> P r) -> P s) ->
  forall s, P s.
Proof.
  intros step s.
  assert (H : forall n r, (String.length r < n)%nat -> P r).
  { induction n as [|n IH]; intros r Hr; [lia|].
    apply step. intros q Hq. apply IH. lia. }
  apply (H (S (String.length s))). lia.
Qed.

Lemma length_append (a b : string) :
  String.length (a ++ b) = (String.length a + String.length b)%nat.
Proof. induction a as [|c a IH]; cbn; [reflexivity | now rewrite IH]. Qed.

Lemma startswith_split (p s : string) :
  startswith p s = true -> exists r, s = p ++ r.
Proof.
  revert s. induction p as [|a p IH]; intros s H; [now exists s|].
  destruct s as [|b s]; [discriminate H|].
  rewrite startswith_cons in H. apply andb_prop in H as [Hab Hp].
  apply Ascii.eqb_eq in Hab. subst b.
  destruct (IH s Hp) as (r & ->). now exists r.
Qed.

(** A text is empty, or starts with the escape token, or starts with a
    character that [replace] copies. *)
Lemma unescape_cases (s : string) :
  s = ""
  \/ (exists r, s = ESCAPE ++ r /\ unescape s = String COMMA (unescape r))
  \/ (exists c r, s = String c r /\ startswith ESCAPE s = false
                  /\ unescape s = String c (unescape r)).
Proof.
  destruct s as [|c r]; [now left|]. right.
  destruct (startswith ESCAPE (String c r)) eqn:E.
  - left. destruct (startswith_split _ _ E) as (q & Hq).
    exists q. split; [exact Hq|]. rewrite Hq. apply unescape_token.
  - right. exists c, r. repeat split. now apply unescape_other.
Qed.

Lemma startswith_unescape (p s : string) :
  has_char COMMA p = false ->
  startswith p (unescape s) = true -> startswith p s = true.
Proof.
  revert s. induction p as [|a p IH]; intros s Hp H; [now destruct s|].
  cbn [has_char] in Hp. apply orb_false_elim in Hp as [Ha Hp].
  destruct (unescape_cases s) as [->|[(r & -> & E)|(c & r & -> & _ & E)]].
  - discriminate H.
  - rewrite E, startswith_cons, (Ascii.eqb_sym a COMMA) in H.
    rewrite Ascii.eqb_sym, Ha in H. discriminate H.
  - rewrite E, startswith_cons in H. apply andb_prop in H as [Hac H].
    rewrite startswith_cons, Hac. now apply IH.
Qed.

(** What [load_tasks] gives as a description never holds the escape
    token. *)
Lemma unescape_no_token (s : string) : occurs ESCAPE (unescape s) = false.
Proof.
  induction s as [s IH] using string_length_ind.
  destruct (unescape_cases s) as [->|[(r & -> & E)|(c & r & -> & N & E)]].
  - reflexivity.
  - rewrite E. cbn [occurs]. rewrite IH; [reflexivity|].
    rewrite length_append. cbn. lia.
  - rewrite E. cbn [occurs]. rewrite (IH r) by (cbn; lia).
    rewrite orb_false_r.
    change ESCAPE with (String "\" "u002C") in *.
    rewrite startswith_cons in *.
    destruct ("\" =? c)%char; [|reflexivity]. rewrite andb_true_l in *.
    destruct (startswith "u002C" (unescape r)) eqn:S; [|reflexivity].
    apply startswith_unescape in S; [congruence | reflexivity].
Qed.

Lemma has_char_unescape (c : ascii) (s : string) :
  Ascii.eqb c COMMA = false -> has_char c s = false ->
  has_char c (unescape s) = false.
Proof.
  intros Hc. induction s as [s IH] using string_length_ind. intros H.
  destruct (unescape_cases s) as [->|[(r & -> & E)|(b & r & -> & _ & E)]].
  - reflexivity.
  - rewrite E. rewrite has_char_app in H. apply orb_false_elim in H as [_ H].
    cbn [has_char]. rewrite (Ascii.eqb_sym COMMA c), Hc.
    apply IH; [|exact H]. rewrite length_append. cbn. lia.
  - rewrite E. cbn [has_char] in *. apply orb_false_elim in H as [Hb H].
    rewrite Hb. apply IH; [cbn; lia | exact H].
Qed.

(** ** The codec on every task *)

Lemma count_char_app (c : ascii) (a b : string) :
  count_char c (a ++ b) = (count_char c a + count_char c b)%nat.
Proof. induction a as [|x a IH]; cbn [append count_char]; [reflexivity | rewrite IH; lia]. Qed.

Lemma count_char_none (c : ascii) (s : string) :
  has_char c s = false <-> count_char c s = O.
Proof.
  induction s as [|x s IH]; cbn [has_char count_char]; [tauto|].
  destruct (Ascii.eqb x c); cbn [orb]; [split; [discriminate | lia]|].
  rewrite IH. cbn. tauto.
Qed.

(** The number of fields of a record: five, and one more for each comma
    of the due date. *)
Lemma encode_field_count (t : Task) :
  List.length (fields_in (encode t))
  = (5 + count_char COMMA (str_optional (due_date t)))%nat.
Proof.
  unfold fields_in. rewrite encode_join, rstrip_join_last.
  - rewrite split_length. unfold fields_of, join.
    repeat (rewrite count_char_app; cbn [count_char]).
    rewrite (proj1 (count_char_none COMMA (str_int (id t)))) by now apply str_int_no.
    rewrite (proj1 (count_char_none COMMA (escape (description t))))
      by apply escape_no_comma.
    rewrite !Ascii.eqb_refl.
    destruct (completed t), (priority t); cbn; lia.
  - reflexivity.
  - unfold fields_of. cbn [last]. now destruct (priority t).
  - unfold fields_of. cbn [last]. now destruct (priority t).
Qed.

Lemma fields_in_encode_any (t : Task) :
  has_char COMMA (str_optional (due_date t)) = false ->
  fields_in (encode t) = fields_of t.
Proof.
  intros H. unfold fields_in. rewrite encode_join, rstrip_join_last.
  - apply split_join; [discriminate|]. unfold fields_of. repeat constructor.
    + now apply str_int_no.
    + apply escape_no_comma.
    + exact H.
    + now destruct (completed t).
    + now destruct (priority t).
  - reflexivity.
  - unfold fields_of. cbn [last]. now destruct (priority t).
  - unfold fields_of. cbn [last]. now destruct (priority t).
Qed.


Lemma decode_encode_any (t : Task) :
  decode (encode t)
  = if has_char COMMA (str_optional (due_date t)) then None
    else Some (read_back t).
Proof.
  destruct (has_char COMMA (str_optional (due_date t))) eqn:H.
  - destruct (decode (encode t)) as [u|] eqn:E; [|reflexivity].
    assert (A : exists u, decode (encode t) = Some u) by eauto.
    apply decode_accepted in A as [L _]. rewrite encode_field_count in L.
    destruct (count_char COMMA (str_optional (due_date t))) eqn:C; [|lia].
    apply count_char_none in C. congruence.
  - rewrite (decode_fields _ _ _ _ _ _ (id t) (fields_in_encode_any t H)
               (int_of_str_str_int _)).
    now rewrite completed_text, from_str_value.
Qed.

Lemma due_of_kept (d : option string) :
  due_of (str_optional d) = d ->
  has_char COMMA (str_optional d) = false ->
  codable_due_date d = true.
Proof.
  destruct d as [s|]; [|reflexivity]. cbn [str_optional codable_due_date].
  intros E H.
  destruct (String.eqb_spec s "") as [->|M]; [discriminate E|].
  destruct (String.eqb_spec s "None") as [->|N]; [discriminate E|].
  now rewrite H.
Qed.

Lemma decode_encode_codable (t : Task) :
  decode (encode t) = Some t -> codable t = true.
Proof.
  rewrite decode_encode_any.
  destruct (has_char COMMA (str_optional (due_date t))) eqn:H; [discriminate|].
  intros [= E]. unfold codable. apply andb_true_intro. split.
  - apply (f_equal description) in E. cbn [read_back description] in E.
    apply negb_true_iff. rewrite <- E. apply unescape_no_token.
  - apply (f_equal due_date) in E. cbn [read_back due_date] in E.
    now apply due_of_kept.
Qed.

(** X2.  Whatever the task, the line written for it is read back as the
    task with the escape tokens of the description turned into commas and
    an empty or None due date turned into an absent one, its id, completed
    flag and priority as they were; unless its due date holds a comma:
    then the line has too many fields and is skipped. *)
Theorem saved_record_reads_back (t : Task) :
  decode (encode t)
  = if has_char COMMA (str_optional (due_date t)) then None
    else Some (mkTask (id t) (unescape (escape (description t)))
                 (due_of (str_optional (due_date t)))
                 (completed t) (priority t)).
Proof. apply decode_encode_any. Qed.

(** ** What a load gives *)

Lemma split_fields_without (x sep : ascii) (s : string) :
  Ascii.eqb x sep = true \/ has_char x s = false ->
  Forall (fun f => has_char x f = false) (split sep s).
Proof.
  intros H. induction s as [|c s IH]; cbn [split]; [now repeat constructor|].
  assert (Hs : Ascii.eqb x sep = true \/ has_char x s = false).
  { destruct H as [H|H]; [now left | right].
    cbn [has_char] in H. now apply orb_false_elim in H. }
  specialize (IH Hs).
  destruct (Ascii.eqb_spec c sep) as [->|N]; [now constructor|].
  assert (Hc : Ascii.eqb c x = false).
  { destruct H as [H|H].
    - apply Ascii.eqb_eq in H. subst x. now apply Ascii.eqb_neq.
    - cbn [has_char] in H. now apply orb_false_elim in H. }
  destruct (split sep s) as [|f fs]; [repeat constructor; cbn; now rewrite Hc|].
  inversion IH as [|? ? Hf Hfs]; subst.
  constructor; [|exact Hfs]. cbn [has_char]. now rewrite Hc, Hf.
Qed.

Lemma has_char_rstrip (c : ascii) (p : ascii -> bool) (s : string) :
  has_char c s = false -> has_char c (rstrip p s) = false.
Proof.
  induction s as [|b s IH]; cbn [has_char rstrip]; [reflexivity|].
  intros H. apply orb_false_elim in H as [Hb Hs]. specialize (IH Hs).
  destruct (rstrip p s) as [|x r].
  - destruct (p b); cbn [has_char]; [reflexivity | now rewrite Hb].
  - cbn [has_char] in *. now rewrite Hb, IH.
Qed.

Lemma universal_newlines_no_cr (s : string) :
  has_char CR (universal_newlines s) = false.
Proof.
  induction s as [s IH] using string_length_ind.
  destruct s as [|c s]; [reflexivity|]. cbn [universal_newlines].
  destruct (Ascii.eqb_spec c CR) as [->|N].
  - destruct s as [|c2 s]; [reflexivity|].
    destruct (Ascii.eqb c2 LF); cbn [has_char]; apply IH; cbn; lia.
  - cbn [has_char]. apply Ascii.eqb_neq in N. rewrite N. apply IH. cbn. lia.
Qed.

Lemma readlines_without (c : ascii) (s : string) :
  has_char c s = false -> Forall (fun l => has_char c l = false) (readlines s).
Proof.
  induction s as [|b s IH]; cbn [readlines has_char]; [constructor|].
  intros H. apply orb_false_elim in H as [Hb Hs]. specialize (IH Hs).
  destruct (Ascii.eqb_spec b LF) as [->|N].
  - constructor; [|exact IH]. cbn [has_char]. now rewrite Hb.
  - destruct (readlines s) as [|l ls]; [repeat constructor; cbn; now rewrite Hb|].
    inversion IH as [|? ? Hl Hls]; subst.
    constructor; [|exact Hls]. cbn [has_char]. now rewrite Hb, Hl.
Qed.

(** A line of the file has its only line feed at its end. *)
Lemma readlines_one_line_feed (s : string) :
  Forall (fun l => has_char LF (rstrip (Ascii.eqb LF) l) = false) (readlines s).
Proof.
  induction s as [|b s IH]; cbn [readlines]; [constructor|].
  destruct (Ascii.eqb_spec b LF) as [->|N].
  - constructor; [reflexivity | exact IH].
  - assert (Hb : Ascii.eqb LF b = false) by (apply Ascii.eqb_neq; congruence).
    assert (Hb' : Ascii.eqb b LF = false) by now apply Ascii.eqb_neq.
    destruct (readlines s) as [|l ls].
    + repeat constructor. cbn [rstrip]. rewrite Hb. cbn. now rewrite Hb'.
    + inversion IH as [|? ? Hl Hls]; subst.
      constructor; [|exact Hls]. cbn [rstrip].
      destruct (rstrip (Ascii.eqb LF) l) as [|x r].
      * rewrite Hb. cbn. now rewrite Hb'.
      * cbn [has_char] in *. now rewrite Hb', Hl.
Qed.

(** The fields of a line of the file hold no comma and no line break. *)
Lemma file_line_fields (text : string) :
  Forall (fun line =>
            Forall (fun f => has_char COMMA f = false /\ one_line f = true)
              (fields_in line))
    (file_lines text).
Proof.
  unfold file_lines.
  pose proof (readlines_without CR _ (universal_newlines_no_cr text)) as Hcr.
  pose proof (readlines_one_line_feed (universal_newlines text)) as Hlf.
  rewrite Forall_forall in *. intros line Hline.
  specialize (Hcr _ Hline). specialize (Hlf _ Hline). cbn beta in *.
  unfold fields_in.
  pose proof (split_fields_without COMMA COMMA (rstrip (Ascii.eqb LF) line)
                (or_introl (Ascii.eqb_refl _))) as F1.
  pose proof (split_fields_without LF COMMA _ (or_intror Hlf)) as F2.
  pose proof (split_fields_without CR COMMA _
                (or_intror (has_char_rstrip CR (Ascii.eqb LF) _ Hcr))) as F3.
  rewrite Forall_forall in *. intros f Hf.
  unfold one_line. now rewrite (F1 f Hf), (F2 f Hf), (F3 f Hf).
Qed.

Lemma decode_some (line : string) (t : Task) :
  decode line = Some t ->
  (2 < List.length (fields_in line))%nat
  /\ description t = unescape (nth 1 (fields_in line) "")
  /\ due_date t = due_of (nth 2 (fields_in line) "").
Proof.
  intros H. assert (A : exists t, decode line = Some t) by eauto.
  apply decode_accepted in A as [L _]. split; [lia|].
  unfold decode in H. fold (fields_in line) in H.
  destruct (negb _); [discriminate H|].
  destruct (int_of_str _); [|discriminate H].
  injection H as <-. cbn [description due_date]. split; [reflexivity|].
  unfold due_of. now destruct (nth 2 (fields_in line) "").
Qed.

Lemma due_of_cases (f : string) :
  due_of f = None \/ (due_of f = Some f /\ f <> "" /\ f <> "None").
Proof.
  destruct (String.eqb_spec f "") as [->|M]; [now left|].
  destruct (String.eqb_spec f "None") as [->|N]; [now left|].
  right. split; [|now split]. unfold due_of.
  destruct f as [|c r]; [now elim M|].
  apply String.eqb_neq in N. now rewrite N.
Qed.

Lemma decode_storable (line : string) (t : Task) :
  Forall (fun f => has_char COMMA f = false /\ one_line f = true) (fields_in line) ->
  decode line = Some t -> storable t = true.
Proof.
  intros F H. apply decode_some in H as (L & Hd & Hdue).
  rewrite Forall_forall in F.
  destruct (F (nth 1 (fields_in line) "")) as [_ H1]; [apply nth_In; lia|].
  destruct (F (nth 2 (fields_in line) "")) as [C2 H2]; [apply nth_In; lia|].
  set (f1 := nth 1 (fields_in line) "") in *.
  set (f2 := nth 2 (fields_in line) "") in *.
  apply andb_prop in H1 as [H1lf H1cr]. apply negb_true_iff in H1lf, H1cr.
  unfold storable, codable, on_one_line, one_line. rewrite Hd, Hdue.
  rewrite unescape_no_token.
  rewrite !has_char_unescape by (reflexivity || assumption).
  cbn [negb andb].
  destruct (due_of_cases f2) as [->|(-> & M & N)]; [reflexivity|].
  cbn [codable_due_date str_optional].
  apply String.eqb_neq in M, N. rewrite M, N, C2.
  apply andb_prop in H2 as [-> ->]. reflexivity.
Qed.

Lemma decoded_storable (text : string) :
  forallb storable (decoded (file_lines text)) = true.
Proof.
  pose proof (file_line_fields text) as F.
  induction F as [|line lines Hline _ IH]; cbn [decoded]; [reflexivity|].
  destruct (decode line) as [t|] eqn:E; [|exact IH].
  cbn [forallb]. now rewrite (decode_storable line t Hline E), IH.
Qed.

Lemma load_storable (st : FileTaskStorage) (ts : list Task) :
  load_tasks st = Returned ts -> forallb storable ts = true.
Proof.
  destruct st as [[| |text|text|] log]; cbn [load_tasks FileTaskStorage_TaskStorage];
    unfold file_load_tasks; cbn [file]; intros [= <-]; try reflexivity;
    rewrite load_loop_decoded; cbn [app]; apply decoded_storable.
Qed.

(** X1.  The exact conditions of the round trip, for the line and for
    the file.  Decoding the line encoded for a task gives that very task
    exactly when its description does not hold the escape token and its
    due date is absent, or is not empty, is not the word None and has no
    comma.  On a file that can be written, [load_tasks] after
    [save_tasks] of the one task returns that very task exactly when,
    moreover, neither its description nor its due date has a line
    break. *)
Theorem roundtrip_exact (t : Task) :
  (decode (encode t) = Some t <-> codable t = true)
  /\ (forall st, openable st = true ->
      (load_tasks (fst (save_tasks [t] st)) = Returned [t]
       <-> codable t = true /\ on_one_line t = true)).
Proof.
  split; [split; [apply decode_encode_codable | apply decode_encode]|].
  intros st Ho. split.
  - intros H. apply load_storable in H. cbn [forallb] in H.
    rewrite andb_true_r in H. now apply andb_prop in H.
  - intros [Hc Hl]. apply reload; [|exact Ho].
    cbn [forallb]. unfold storable. now rewrite Hc, Hl.
Qed.

Lemma roundtrip_exact_witness :
  let t := mkTask 4 "tea, milk" (Some "2024-09-01") false LOW in
  decode (encode t) = Some t
  /\ load_tasks (fst (save_tasks [t] (mkStorage Missing []))) = Returned [t].
Proof.
  cbv zeta.
  destruct (roundtrip_exact (mkTask 4 "tea, milk" (Some "2024-09-01") false LOW))
    as [Hline Hfile].
  split.
  - apply Hline. reflexivity.
  - apply (Hfile (mkStorage Missing []) eq_refl). split; reflexivity.
Defined.

(** A description with a line break: the line decodes to the task, the
    file does not give it back. *)
Example roundtrip_line_not_file :
  let t := mkTask 1 ("milk" ++ String LF "eggs") None false LOW in
  codable t = true /\ on_one_line t = false
  /\ decode (encode t) = Some t
  /\ load_tasks (fst (save_tasks [t] (mkStorage Missing []))) = Returned [].
Proof. cbv zeta. repeat split. Qed.

(** X3.  Every task that [load_tasks] returns is one the file gives back
    as it is: its description holds no escape token and no line break, and
    its due date is absent, or is not empty, is not the word None and has
    no comma and no line break - whatever text the file holds. *)
Theorem loaded_tasks_are_storable (st : FileTaskStorage) (ts : list Task) :
  load_tasks st = Returned ts ->
  Forall (fun t => codable t = true /\ on_one_line t = true) ts.
Proof.
  intros H. apply load_storable in H.
  rewrite forallb_forall in H. apply Forall_forall. intros t Ht.
  specialize (H t Ht). now apply andb_prop in H.
Qed.

Lemma loaded_tasks_are_storable_witness :
  Forall (fun t => codable t = true /\ on_one_line t = true)
    [mkTask 3 "Pay rent" (Some "2024-08-01") false HIGH;
     mkTask 7 "Call, then write" None true MEDIUM;
     mkTask 2 "Walk" None true LOW].
Proof. exact (loaded_tasks_are_storable sample_store _ eq_refl). Defined.

(** X4.  Saving what was loaded and loading again gives the same list:
    whatever text the file holds, malformed lines and all, when the file
    can be written the save of the list that [load_tasks] returned
    returns, and the list is read back unchanged from the file written. *)
Theorem reload_of_loaded (st : FileTaskStorage) (ts : list Task) :
  load_tasks st = Returned ts -> openable st = true ->
  snd (save_tasks ts st) = Returned tt
  /\ load_tasks (fst (save_tasks ts st)) = Returned ts.
Proof.
  intros H Hst. apply load_storable in H. split.
  - now rewrite save_tasks_openable.
  - now apply reload.
Qed.

Lemma reload_of_loaded_witness :
  let st := mkStorage (Stored ("junk line" ++ String LF ""
                               ++ " 07 ,Walk,, TRUE " ++ String CR ""
                               ++ "x,y,z,w" ++ String LF ""
                               ++ "8,Run,None,no,H")) [] in
  let ts := [mkTask 7 "Walk" None true MEDIUM; mkTask 8 "Run" None false HIGH] in
  snd (save_tasks ts st) = Returned tt
  /\ load_tasks (fst (save_tasks ts st)) = Returned ts.
Proof.
  cbv zeta.
  exact (reload_of_loaded
           (mkStorage (Stored ("junk line" ++ String LF ""
                               ++ " 07 ,Walk,, TRUE " ++ String CR ""
                               ++ "x,y,z,w" ++ String LF ""
                               ++ "8,Run,None,no,H")) [])
           [mkTask 7 "Walk" None true MEDIUM; mkTask 8 "Run" None false HIGH]
           eq_refl eq_refl).
Defined.

(** The condition on the file is needed: a file that can be read and not
    written loads, and the save of what was loaded raises. *)
Example reload_needs_writable_file :
  let st := mkStorage (ReadOnly ("1,Walk,None,False,low" ++ String LF "")) [] in
  load_tasks st = Returned [mkTask 1 "Walk" None false LOW]
  /\ save_tasks [mkTask 1 "Walk" None false LOW] st = (st, Raised OSError).
Proof. cbv zeta. split; reflexivity. Qed.

(** ** Line endings *)

Lemma universal_newlines_crlf (text : string) :
  has_char CR text = false ->
  universal_newlines (replace (String LF "") (String CR (String LF "")) text) = text.
Proof.
  unfold replace. induction text as [|c s IH]; [reflexivity|].
  cbn [has_char]. intros H. apply orb_false_elim in H as [Hc Hs].
  cbn [replace_from startswith String.length Nat.pred].
  rewrite andb_true_r, (Ascii.eqb_sym LF c).
  destruct (Ascii.eqb_spec c LF) as [->|N].
  - cbn [append universal_newlines]. rewrite !Ascii.eqb_refl.
    now rewrite (IH Hs).
  - cbn [universal_newlines]. now rewrite Hc, (IH Hs).
Qed.

(** X5.  The line-ending convention of the file does not matter to a
    load: a text loads like its form with every line ending turned into a
    line feed, and a text written with line feeds loads the same after
    every line feed is replaced by carriage return and line feed. *)
Theorem load_any_line_endings (text : string) (log : list string) :
  load_tasks (mkStorage (Stored (universal_newlines text)) log)
  = load_tasks (mkStorage (Stored text) log)
  /\ (has_char CR text = false ->
      load_tasks (mkStorage
                    (Stored (replace (String LF "") (String CR (String LF "")) text))
                    log)
      = load_tasks (mkStorage (Stored text) log)).
Proof.
  split.
  - rewrite !load_tasks_stored. unfold file_lines.
    now rewrite (universal_newlines_id (universal_newlines text))
      by apply universal_newlines_no_cr.
  - intros H. rewrite !load_tasks_stored. unfold file_lines.
    rewrite (universal_newlines_crlf text H).
    now rewrite (universal_newlines_id text H).
Qed.

Lemma load_any_line_endings_witness :
  load_tasks (mkStorage
                (Stored ("1,Walk,None,False,low" ++ String CR (String LF "")
                         ++ "2,Run,None,True,high" ++ String CR (String LF ""))) [])
  = load_tasks (mkStorage
                  (Stored ("1,Walk,None,False,low" ++ String LF ""
                           ++ "2,Run,None,True,high" ++ String LF "")) []).
Proof.
  exact (proj2 (load_any_line_endings
                  ("1,Walk,None,False,low" ++ String LF ""
                   ++ "2,Run,None,True,high" ++ String LF "") [])
           eq_refl).
Defined.

(** ** The file after a call *)

Lemma text_of_app (l1 l2 : list Task) :
  text_of (l1 ++ l2) = text_of l1 ++ text_of l2.
Proof.
  induction l1 as [|t l1 IH]; cbn [app text_of]; [reflexivity|].
  now rewrite IH, append_assoc.
Qed.

(** X6.  [add_task] rewrites the whole file, yet on a file that can be
    written and matches the list the effect is an append: the call
    returns, and the new text is the old text followed by the record of
    the new task. *)
Theorem add_task_appends_record (d : string) (due : option string)
    (p : priority_arg) (m : TaskManager FileTaskStorage) (text : string) :
  openable (storage m) = true ->
  file (storage m) = Stored text -> consistent m ->
  exists m' t,
    add_task d due p m = (m', Returned t)
    /\ file (storage m') = Stored (text ++ encode t)
    /\ consistent m'.
Proof.
  intros Hopen Hfile Hm. unfold consistent in Hm. rewrite Hfile in Hm.
  injection Hm as ->.
  rewrite (add_task_returns d due p m Hopen). cbv zeta.
  eexists. eexists. split; [reflexivity|].
  unfold consistent. cbn [storage file tasks].
  rewrite !save_loop_start, text_of_app. cbn [text_of].
  now rewrite append_empty_r.
Qed.

Lemma add_task_appends_record_witness :
  exists m' t,
    add_task "Run" None AsNone
      (mkManager (mkStorage (Stored (encode (mkTask 1 "Walk" None false LOW))) [])
         [mkTask 1 "Walk" None false LOW] 2)
    = (m', Returned t)
    /\ file (storage m')
       = Stored (encode (mkTask 1 "Walk" None false LOW) ++ encode t)
    /\ consistent m'.
Proof.
  apply add_task_appends_record; reflexivity.
Defined.

(** ** Looking up, adding, completing and removing, one after the other *)

Section Compositions.

Context {Store : Type} {port : TaskStorage Store}.

Lemma get_task_by_id_unfold (task_id : Z) (m : TaskManager Store) :
  get_task_by_id task_id m
  = (m, Returned (find (fun t => id t =? task_id) (tasks m))).
Proof. reflexivity. Qed.

Lemma find_id_none (task_id : Z) (ts : list Task) :
  find (fun t => id t =? task_id) ts = None <-> ~ In task_id (map id ts).
Proof.
  rewrite position_find, <- absent_iff, <- position_none.
  destruct (position task_id ts) as [i|] eqn:E; [|tauto].
  destruct (position_some _ _ _ E) as (t & -> & _). split; discriminate.
Qed.

Lemma find_id_some (task_id : Z) (ts : list Task) (t : Task) :
  find (fun u => id u =? task_id) ts = Some t ->
  exists i, position task_id ts = Some i /\ nth_error ts i = Some t
            /\ id t = task_id
            /\ forall j u, (j < i)%nat -> nth_error ts j = Some u -> id u <> task_id.
Proof.
  rewrite position_find.
  destruct (position task_id ts) as [i|] eqn:E; [|discriminate].
  destruct (position_some _ _ _ E) as (u & Hu & Hid & Hbefore).
  rewrite Hu. intros [= <-]. exists i. auto.
Qed.

Lemma mark_task_completed_tasks (task_id : Z) (m : TaskManager Store) :
  tasks (fst (mark_task_completed task_id m)) = completed_at task_id (tasks m)
  /\ next_id (fst (mark_task_completed task_id m)) = next_id m.
Proof.
  rewrite mark_task_completed_unfold. unfold completed_at.
  now destruct (position task_id (tasks m)).
Qed.

Lemma add_task_tasks (d : string) (due : option string) (p : priority_arg)
    (m : TaskManager Store) :
  tasks (fst (add_task d due p m))
  = (tasks m ++ [mkTask (next_id m) d due false (chosen p)])%list
  /\ next_id (fst (add_task d due p m)) = next_id m + 1.
Proof. rewrite add_task_unfold. now split. Qed.

Lemma remove_task_tasks (task_id : Z) (m : TaskManager Store) :
  tasks (fst (remove_task task_id m)) = without task_id (tasks m)
  /\ next_id (fst (remove_task task_id m)) = next_id m.
Proof.
  rewrite remove_task_unfold. cbv zeta.
  destruct (Nat.eqb_spec (List.length (without task_id (tasks m)))
              (List.length (tasks m))) as [L|L]; cbn [fst tasks next_id].
  - now rewrite (without_same_length _ _ L).
  - now split.
Qed.

Lemma remove_task_absent (task_id : Z) (m : TaskManager Store) :
  ~ In task_id (map id (tasks m)) -> remove_task task_id m = (m, Returned false).
Proof.
  intros H. apply absent_iff in H. rewrite remove_task_unfold. cbv zeta.
  now rewrite (without_absent _ _ H), Nat.eqb_refl.
Qed.

Lemma position_same_ids (task_id : Z) (ts us : list Task) :
  map id ts = map id us -> position task_id ts = position task_id us.
Proof.
  revert us. induction ts as [|t ts IH]; intros [|u us] H; try discriminate H;
    [reflexivity|].
  cbn [map] in H. injection H as Hid Hrest. cbn [position].
  now rewrite Hid, (IH us Hrest).
Qed.

Lemma update_at_twice (i : nat) (ts : list Task) :
  update_at i mark_completed (update_at i mark_completed ts)
  = update_at i mark_completed ts.
Proof.
  revert i. induction ts as [|t ts IH]; intros [|i]; cbn [update_at];
    [reflexivity.. | now rewrite IH].
Qed.

Lemma completed_at_ids (task_id : Z) (ts : list Task) :
  map id (completed_at task_id ts) = map id ts.
Proof.
  unfold completed_at. destruct (position task_id ts); [apply update_at_ids | reflexivity].
Qed.

Lemma completed_at_twice (task_id : Z) (ts : list Task) :
  completed_at task_id (completed_at task_id ts) = completed_at task_id ts.
Proof.
  unfold completed_at at 1.
  rewrite (position_same_ids task_id _ ts (completed_at_ids task_id ts)).
  unfold completed_at. destruct (position task_id ts); [apply update_at_twice | reflexivity].
Qed.

Lemma below_next_absent (m : TaskManager Store) :
  ids_below_next m -> ~ In (next_id m) (map id (tasks m)).
Proof.
  intros H Hin. unfold ids_below_next in H. rewrite Forall_forall in H.
  specialize (H _ Hin). lia.
Qed.

Lemma find_app_absent (task_id : Z) (ts us : list Task) :
  ~ In task_id (map id ts) ->
  find (fun t => id t =? task_id) (ts ++ us) = find (fun t => id t =? task_id) us.
Proof.
  induction ts as [|t ts IH]; cbn [app map In find]; intros H; [reflexivity|].
  destruct (Z.eqb_spec (id t) task_id) as [E|N]; [exfalso; auto|].
  apply IH. tauto.
Qed.

(** X7.  [get_task_by_id] changes nothing and does not raise; it returns
    [None] exactly when no task of the list has the id, and otherwise the
    first task of the list with the id. *)
Theorem get_task_by_id_first_match (task_id : Z) (m : TaskManager Store) :
  fst (get_task_by_id task_id m) = m
  /\ (snd (get_task_by_id task_id m) = Returned None
      <-> ~ In task_id (map id (tasks m)))
  /\ (forall t, snd (get_task_by_id task_id m) = Returned (Some t) ->
      exists i, nth_error (tasks m) i = Some t /\ id t = task_id
                /\ forall j u, (j < i)%nat -> nth_error (tasks m) j = Some u ->
                               id u <> task_id)
  /\ exists found, snd (get_task_by_id task_id m) = Returned found.
Proof.
  rewrite get_task_by_id_unfold. cbn [fst snd]. split; [reflexivity|].
  split; [|split; [|eauto]].
  - rewrite <- find_id_none. split; [now intros [= ->] | now intros ->].
  - intros t [= H]. apply find_id_some in H as (i & _ & H). eauto.
Qed.

(** X8.  A task just added is the one found under its id: when every id
    of the list is below the next id, as after [__init__], the next id
    finds nothing before [add_task] and the new task after it, whether or
    not the save went through. *)
Theorem add_task_then_get (d : string) (due : option string) (p : priority_arg)
    (m : TaskManager Store) :
  ids_below_next m ->
  snd (get_task_by_id (next_id m) m) = Returned None
  /\ snd (get_task_by_id (next_id m) (fst (add_task d due p m)))
     = Returned (Some (mkTask (next_id m) d due false (chosen p))).
Proof.
  intros H. apply below_next_absent in H.
  rewrite !get_task_by_id_unfold, add_task_unfold. cbv zeta. cbn [fst snd tasks].
  split.
  - f_equal. now apply find_id_none.
  - rewrite find_app_absent by exact H. cbn [find id]. now rewrite Z.eqb_refl.
Qed.

(** X9.  After [remove_task] the id is gone: [get_task_by_id] finds
    nothing under it, and a second [remove_task] returns false and leaves
    the manager and its storage as they are. *)
Theorem remove_task_twice (task_id : Z) (m : TaskManager Store) :
  let m1 := fst (remove_task task_id m) in
  snd (get_task_by_id task_id m1) = Returned None
  /\ remove_task task_id m1 = (m1, Returned false).
Proof.
  cbv zeta.
  assert (H : ~ In task_id (map id (tasks (fst (remove_task task_id m))))).
  { rewrite (proj1 (remove_task_tasks task_id m)). apply absent_iff, without_clears. }
  split.
  - rewrite get_task_by_id_unfold. cbn [snd]. f_equal. now apply find_id_none.
  - now apply remove_task_absent.
Qed.

(** X10.  Removing the task just added gives the list back, and the id is
    not handed out again: when every id of the list is below the next id,
    [add_task] followed by [remove_task] of the new id leaves the tasks as
    they were and the next id one higher. *)
Theorem add_task_then_remove (d : string) (due : option string) (p : priority_arg)
    (m : TaskManager Store) :
  ids_below_next m ->
  let m2 := fst (remove_task (next_id m) (fst (add_task d due p m))) in
  tasks m2 = tasks m /\ next_id m2 = next_id m + 1 /\ ids_below_next m2.
Proof.
  intros H. cbv zeta.
  destruct (add_task_tasks d due p m) as [At An].
  destruct (remove_task_tasks (next_id m) (fst (add_task d due p m))) as [Ht Hn].
  rewrite At in Ht. rewrite An in Hn.
  assert (E : without (next_id m)
                (tasks m ++ [mkTask (next_id m) d due false (chosen p)]) = tasks m).
  { unfold without. rewrite filter_app. cbn [filter id]. rewrite Z.eqb_refl.
    cbn [negb]. rewrite app_nil_r. apply without_absent.
    apply absent_iff. now apply below_next_absent. }
  rewrite E in Ht. split; [exact Ht|]. split; [exact Hn|].
  unfold ids_below_next in *. rewrite Ht, Hn.
  revert H. apply Forall_impl. intros; lia.
Qed.

(** X11.  Completing is idempotent and touches nothing else: a second
    [mark_task_completed] of the same id leaves the list as the first left
    it, and the call changes neither the ids, nor the number of tasks, nor
    the next id. *)
Theorem mark_task_completed_twice (task_id : Z) (m : TaskManager Store) :
  let m1 := fst (mark_task_completed task_id m) in
  tasks (fst (mark_task_completed task_id m1)) = tasks m1
  /\ map id (tasks m1) = map id (tasks m)
  /\ List.length (tasks m1) = List.length (tasks m)
  /\ next_id m1 = next_id m.
Proof.
  cbv zeta.
  destruct (mark_task_completed_tasks task_id m) as [Ht Hn].
  destruct (mark_task_completed_tasks task_id (fst (mark_task_completed task_id m)))
    as [Ht2 _].
  rewrite Ht2, Ht, completed_at_twice, completed_at_ids.
  repeat split; [|exact Hn].
  rewrite <- (length_map id), completed_at_ids. apply length_map.
Qed.

End Compositions.

Lemma get_task_by_id_first_match_witness :
  exists i,
    nth_error [mkTask 4 "a" None false LOW; mkTask 9 "b" None false LOW;
               mkTask 9 "c" None true HIGH] i
    = Some (mkTask 9 "b" None false LOW)
    /\ id (mkTask 9 "b" None false LOW) = 9
    /\ forall j u, (j < i)%nat ->
         nth_error [mkTask 4 "a" None false LOW; mkTask 9 "b" None false LOW;
                    mkTask 9 "c" None true HIGH] j = Some u ->
         id u <> 9.
Proof.
  exact (proj1 (proj2 (proj2 (get_task_by_id_first_match 9
                  (mkManager (mkStorage Missing [])
                     [mkTask 4 "a" None false LOW; mkTask 9 "b" None false LOW;
                      mkTask 9 "c" None true HIGH] 10))))
           (mkTask 9 "b" None false LOW) eq_refl).
Defined.

Lemma add_task_then_get_witness :
  snd (get_task_by_id 3 (mkManager (mkStorage Missing [])
                           [mkTask 1 "Walk" None false LOW] 3))
  = Returned None
  /\ snd (get_task_by_id 3
            (fst (add_task "Run" None AsNone
                    (mkManager (mkStorage Missing [])
                       [mkTask 1 "Walk" None false LOW] 3))))
     = Returned (Some (mkTask 3 "Run" None false MEDIUM)).
Proof.
  apply (add_task_then_get "Run" None AsNone
           (mkManager (mkStorage Missing []) [mkTask 1 "Walk" None false LOW] 3)).
  repeat constructor.
Defined.

Lemma add_task_then_remove_witness :
  let m := mkManager (mkStorage Missing []) [mkTask 1 "Walk" None false LOW] 3 in
  let m2 := fst (remove_task (next_id m) (fst (add_task "Run" None AsNone m))) in
  tasks m2 = tasks m /\ next_id m2 = next_id m + 1 /\ ids_below_next m2.
Proof.
  apply (add_task_then_remove "Run" None AsNone
           (mkManager (mkStorage Missing []) [mkTask 1 "Walk" None false LOW] 3)).
  repeat constructor.
Defined.

(** Without the condition on the ids the new task can hide behind an
    older one with its id. *)
Example add_task_then_get_needs_ids_below :
  snd (get_task_by_id 1
         (fst (add_task "Run" None AsNone
                 (mkManager (mkStorage Missing [])
                    [mkTask 1 "Walk" None false LOW] 1))))
  = Returned (Some (mkTask 1 "Walk" None false LOW)).
Proof. reflexivity. Qed.

(** ** When the save fails *)

(** X12.  Where the path cannot be opened for writing nothing is caught
    and nothing is rolled back: [add_task] raises after the task is in
    the list and the next id has moved; for an id in the list
    [mark_task_completed] raises after the flag is set and [remove_task]
    raises after the tasks are out of the list; the storage is as it was.
    On a path that exists and cannot be opened at all [__init__] raises
    too. *)
Theorem failed_save_keeps_change (d : string) (due : option string)
    (p : priority_arg) (task_id : Z) (m : TaskManager FileTaskStorage) :
  openable (storage m) = false ->
  (file (storage m) = Unopenable -> init (storage m) = Raised OSError)
  /\ add_task d due p m
     = (mkManager (storage m)
          (tasks m ++ [mkTask (next_id m) d due false (chosen p)]) (next_id m + 1),
        Raised OSError)
  /\ (In task_id (map id (tasks m)) ->
      mark_task_completed task_id m
      = (mkManager (storage m) (completed_at task_id (tasks m)) (next_id m),
         Raised OSError)
      /\ remove_task task_id m
         = (mkManager (storage m)
              (filter (fun t => negb (id t =? task_id)) (tasks m)) (next_id m),
            Raised OSError)).
Proof.
  intros H. split; [|split].
  - intros U. unfold init. cbn [load_tasks FileTaskStorage_TaskStorage].
    unfold file_load_tasks. now rewrite U.
  - rewrite add_task_unfold. cbv zeta. now rewrite save_tasks_unopenable.
  - intros Hin. split.
    + rewrite mark_task_completed_unfold. unfold completed_at.
      destruct (position_present _ _ Hin) as (i & ->). cbv zeta.
      now rewrite save_tasks_unopenable.
    + rewrite remove_task_unfold. cbv zeta.
      destruct (Nat.eqb_spec (List.length (without task_id (tasks m)))
                  (List.length (tasks m))) as [L|L].
      * exfalso. revert L. apply without_present.
        intros A. apply absent_iff in A. contradiction.
      * now rewrite save_tasks_unopenable.
Qed.

Lemma failed_save_keeps_change_witness :
  let m := mkManager (mkStorage Unopenable []) [mkTask 1 "Walk" None false LOW] 2 in
  init (storage m) = Raised OSError
  /\ mark_task_completed 1 m
     = (mkManager (mkStorage Unopenable []) [mkTask 1 "Walk" None true LOW] 2,
        Raised OSError)
  /\ remove_task 1 m = (mkManager (mkStorage Unopenable []) [] 2, Raised OSError).
Proof.
  cbv zeta.
  destruct (failed_save_keeps_change "" None AsNone 1
              (mkManager (mkStorage Unopenable []) [mkTask 1 "Walk" None false LOW] 2)
              eq_refl) as (Hinit & _ & Hid).
  split; [exact (Hinit eq_refl)|].
  apply Hid. now left.
Defined.

(** ** The file and the list over a session *)

Lemma consistent_after_save (m : TaskManager FileTaskStorage) (ts : list Task) (n : Z) :
  openable (storage m) = true ->
  consistent (mkManager (fst (save_tasks ts (storage m))) ts n).
Proof. intros H. exact (proj1 (saved_once_after m ts n H)). Qed.

Lemma perform_consistent (c : call) (m : TaskManager FileTaskStorage) :
  openable (storage m) = true -> consistent m -> consistent (fst (perform c m)).
Proof.
  intros Ho Hm. destruct c as [d due p|i|i]; cbn [perform].
  - rewrite add_task_unfold. cbv zeta.
    rewrite (surjective_pairing (save_tasks _ (storage m))).
    pose proof (consistent_after_save m
                  (tasks m ++ [mkTask (next_id m) d due false (chosen p)])
                  (next_id m + 1) Ho) as C.
    rewrite save_tasks_openable in * by exact Ho. exact C.
  - rewrite mark_task_completed_unfold.
    destruct (position i (tasks m)); [|exact Hm].
    cbv zeta. cbn [fst]. now apply consistent_after_save.
  - rewrite remove_task_unfold. cbv zeta.
    destruct (_ =? _)%nat; [exact Hm|].
    cbn [fst]. now apply consistent_after_save.
Qed.

(** X13.  On a file that can be written, once the file matches the list
    it matches after every call: whatever calls follow, those that change
    the list and those that find nothing to change, the file holds the
    text of the list in memory. *)
Theorem consistency_is_kept (cs : list call) (m : TaskManager FileTaskStorage) :
  openable (storage m) = true -> consistent m ->
  consistent (fst (session cs m)).
Proof.
  revert m. induction cs as [|c rest IH]; intros m Ho Hm; cbn [session]; [exact Hm|].
  pose proof (perform_consistent c m Ho Hm) as H1.
  pose proof (perform_openable c m Ho) as Ho1.
  destruct (perform c m) as [m1 ids1]. cbn [fst] in H1, Ho1.
  specialize (IH m1 Ho1 H1). now destruct (session rest m1).
Qed.

Lemma consistency_is_kept_witness :
  consistent
    (fst (session [Add "Run" (Some "soon") (AsStr "h"); Complete 9; Remove 1;
                   Complete 2; Remove 1]
            (mkManager (mkStorage (Stored (encode (mkTask 1 "Walk" None false LOW))) [])
               [mkTask 1 "Walk" None false LOW] 2))).
Proof.
  apply consistency_is_kept; reflexivity.
Defined.

(** X14.  A restart restores the list: when the file matches the list and
    every task of the list is one the file gives back, a new manager on
    the same storage holds the same tasks in the same order; its next id
    is one more than the largest id left, so not above the old next id. *)
Theorem restart_restores_list (m : TaskManager FileTaskStorage) :
  consistent m -> forallb storable (tasks m) = true ->
  exists m',
    init (storage m) = Returned m'
    /\ storage m' = storage m /\ tasks m' = tasks m
    /\ (ids_below_next m -> tasks m <> [] -> next_id m' <= next_id m).
Proof.
  intros Hm Hts.
  assert (Hload : load_tasks (storage m) = Returned (tasks m)).
  { destruct m as [[f log] ts n]. unfold consistent in Hm.
    cbn [storage tasks file] in *. subst f.
    rewrite load_tasks_stored, save_loop_start.
    apply forallb_storable in Hts as [Hc Hl].
    now rewrite file_lines_text_of, decoded_encode. }
  unfold init. rewrite Hload. eexists. split; [reflexivity|].
  cbn [storage tasks next_id]. repeat split.
  intros Hids Hne.
  assert (N : map id (tasks m) <> [])
    by (destruct (tasks m); [now elim Hne | discriminate]).
  destruct (max_default_spec (map id (tasks m)) 0 N) as [Hin _].
  unfold ids_below_next in Hids. rewrite Forall_forall in Hids.
  specialize (Hids _ Hin). lia.
Qed.

Lemma restart_restores_list_witness :
  let m := mkManager
             (mkStorage (Stored (encode (mkTask 1 "Walk, then run" None false LOW)
                                 ++ encode (mkTask 2 "Call" (Some "8/1") true HIGH)))
                [])
             [mkTask 1 "Walk, then run" None false LOW;
              mkTask 2 "Call" (Some "8/1") true HIGH] 7 in
  exists m',
    init (storage m) = Returned m'
    /\ storage m' = storage m /\ tasks m' = tasks m
    /\ (ids_below_next m -> tasks m <> [] -> next_id m' <= next_id m).
Proof.
  cbv zeta.
  apply (restart_restores_list
           (mkManager
              (mkStorage (Stored (encode (mkTask 1 "Walk, then run" None false LOW)
                                  ++ encode (mkTask 2 "Call" (Some "8/1") true HIGH)))
                 [])
              [mkTask 1 "Walk, then run" None false LOW;
               mkTask 2 "Call" (Some "8/1") true HIGH] 7));
    reflexivity.
Defined.

(** An id given up in one session can come back in the next: the next id
    is not stored, it is computed from the tasks that are left. *)
Example id_reused_after_restart :
  let m0 := mkManager (mkStorage Missing []) [] 1 in
  let m1 := fst (session [Add "a" None AsNone; Add "b" None AsNone; Remove 2] m0) in
  next_id m1 = 3
  /\ exists m2, init (storage m1) = Returned m2 /\ next_id m2 = 2.
Proof. cbv zeta. split; [reflexivity|]. eexists. split; reflexivity. Qed.

(** ** What a session does to a task *)

Lemma later_refl (t : Task) : later t t.
Proof. unfold later. tauto. Qed.

Lemma later_trans (a b c : Task) : later a b -> later b c -> later a c.
Proof.
  unfold later. intros (I1 & D1 & U1 & P1 & C1) (I2 & D2 & U2 & P2 & C2).
  repeat split; try congruence. auto.
Qed.

Lemma later_mark_completed (t : Task) : later t (mark_completed t).
Proof. unfold later, mark_completed. cbn. tauto. Qed.

Lemma update_at_in (i : nat) (f : Task -> Task) (ts : list Task) (t : Task) :
  In t (update_at i f ts) -> exists t0, In t0 ts /\ (t = t0 \/ t = f t0).
Proof.
  revert i. induction ts as [|u ts IH]; intros [|i]; cbn [update_at In]; try tauto.
  - intros [E|H]; [exists u; auto | exists t; auto].
  - intros [E|H]; [exists u; auto|].
    destruct (IH i H) as (t0 & H0 & E). exists t0. auto.
Qed.

Section SessionTasks.

Context {Store : Type} {port : TaskStorage Store}.

Lemma perform_next_id (c : call) (m : TaskManager Store) :
  next_id m <= next_id (fst (perform c m)).
Proof.
  destruct c as [d due p|i|i]; cbn [perform fst].
  - rewrite add_task_unfold. cbv zeta.
    destruct (snd (save_tasks _ (storage m))); cbn [after_save fst next_id]; lia.
  - rewrite (proj2 (mark_task_completed_tasks i m)). lia.
  - rewrite (proj2 (remove_task_tasks i m)). lia.
Qed.

Lemma perform_later (c : call) (m : TaskManager Store) (t : Task) :
  In t (tasks (fst (perform c m))) ->
  (exists t0, In t0 (tasks m) /\ later t0 t) \/ next_id m <= id t.
Proof.
  destruct c as [d due p|i|i]; cbn [perform fst].
  - rewrite add_task_unfold. cbv zeta.
    destruct (snd (save_tasks _ (storage m))); cbn [after_save fst tasks];
      intros H; apply in_app_or in H as [H|[<-|[]]];
      try (left; exists t; split; [exact H | apply later_refl]);
      right; cbn [id]; lia.
  - rewrite (proj1 (mark_task_completed_tasks i m)). unfold completed_at.
    destruct (position i (tasks m)) as [k|].
    + intros H. apply update_at_in in H as (t0 & H0 & [->| ->]); left; exists t0;
        (split; [exact H0|]); [apply later_refl | apply later_mark_completed].
    + intros H. left. exists t. split; [exact H | apply later_refl].
  - rewrite (proj1 (remove_task_tasks i m)). unfold without.
    intros H. apply filter_In in H as [H _].
    left. exists t. split; [exact H | apply later_refl].
Qed.

(** X15.  A session never edits a task and never takes a completion back:
    each task in the list after any calls is either a task of the list
    before, with its id, description, due date and priority as they were
    and completed if it was, or a task added since, with an id not below
    the old next id. *)
Theorem session_only_completes (cs : list call) (m : TaskManager Store) (t : Task) :
  In t (tasks (fst (session cs m))) ->
  (exists t0, In t0 (tasks m) /\ later t0 t) \/ next_id m <= id t.
Proof.
  revert m. induction cs as [|c rest IH]; intros m; cbn [session].
  - intros H. left. exists t. split; [exact H | apply later_refl].
  - pose proof (perform_next_id c m) as Hn.
    pose proof (fun u => perform_later c m u) as Hl.
    destruct (perform c m) as [m1 ids1]. cbn [fst] in Hn, Hl.
    specialize (IH m1). destruct (session rest m1) as [m2 ids2]. cbn [fst] in *.
    intros H. destruct (IH H) as [(t1 & H1 & L1)|Hnew]; [|right; lia].
    destruct (Hl t1 H1) as [(t0 & H0 & L0)|Hnew].
    + left. exists t0. split; [exact H0 | exact (later_trans _ _ _ L0 L1)].
    + right. destruct L1 as (E & _). lia.
Qed.

End SessionTasks.

Lemma session_only_completes_witness :
  let m := mkManager (mkStorage Missing [])
             [mkTask 1 "Walk" None true LOW; mkTask 2 "Run" None false HIGH] 3 in
  let t := mkTask 2 "Run" None true HIGH in
  (exists t0, In t0 (tasks m) /\ later t0 t) \/ next_id m <= id t.
Proof.
  cbv zeta.
  apply (session_only_completes [Add "Call" None AsNone; Complete 2; Remove 1]
           (mkManager (mkStorage Missing [])
              [mkTask 1 "Walk" None true LOW; mkTask 2 "Run" None false HIGH] 3)).
  cbn. left. reflexivity.
Defined.

(** ** The printed line of a task *)

(** X16.  Completing a task changes its printed line in the status mark
    and nowhere else, and the mark tells a pending task from a completed
    one; a due date that is the empty string is printed like an absent
    one. *)
Theorem str_task_shows_completion (t : Task) :
  (exists rest,
      str_task t = "[" ++ (if completed t then "/" else " ") ++ "]" ++ rest
      /\ str_task (mark_completed t) = "[/]" ++ rest)
  /\ (completed t = false -> str_task (mark_completed t) <> str_task t)
  /\ str_task (mkTask (id t) (description t) (Some "") (completed t) (priority t))
     = str_task (mkTask (id t) (description t) None (completed t) (priority t)).
Proof.
  split; [|split].
  - eexists. unfold str_task, mark_completed.
    cbn [id description due_date completed priority].
    destruct (completed t); cbn [append]; split; reflexivity.
  - intros H. unfold str_task, mark_completed.
    cbn [id description due_date completed priority]. rewrite H.
    cbn [append]. discriminate.
  - reflexivity.
Qed.

Lemma str_task_shows_completion_witness :
  str_task (mark_completed (mkTask 3 "Do laundry" None false LOW))
  <> str_task (mkTask 3 "Do laundry" None false LOW).
Proof.
  apply (proj1 (proj2 (str_task_shows_completion
                         (mkTask 3 "Do laundry" None false LOW)))).
  reflexivity.
Defined.

(** ** The demo program *)

Lemma load_tasks_file (st1 st2 : FileTaskStorage) :
  file st1 = file st2 -> load_tasks st1 = load_tasks st2.
Proof.
  cbn [load_tasks FileTaskStorage_TaskStorage]. unfold file_load_tasks.
  now intros ->.
Qed.

Lemma init_loaded (st : FileTaskStorage) (ts : list Task) :
  load_tasks st = Returned ts ->
  init st = Returned (mkManager st ts (max_default (map id ts) 0 + 1)).
Proof. intros H. unfold init. now rewrite H. Qed.

Lemma main_unfold (st : FileTaskStorage) (ts : list Task) :
  load_tasks st = Returned ts -> openable st = true ->
  snd (main st)
  = Returned (map str_task (demo_list ts),
              map str_task (completed_at 1 (demo_list ts)))
  /\ file (fst (main st))
     = match position 1 (demo_list ts) with
       | Some _ => Stored (text_of (completed_at 1 (demo_list ts)))
       | None => file st
       end
  /\ openable (fst (main st)) = true.
Proof.
  intros H Ho.
  unfold main. rewrite (init_loaded st ts H).
  destruct ts as [|t r].
  - destruct st as [[| |text|text|] log]; try discriminate Ho;
      repeat split; reflexivity.
  - unfold script, bind, list_tasks, get_tasks, ret. cbn [tasks demo_list].
    rewrite mark_task_completed_unfold. cbn [tasks storage next_id].
    unfold completed_at.
    destruct (position 1 (t :: r)) as [i|]; [|repeat split; exact Ho].
    cbv zeta. rewrite save_tasks_openable by exact Ho.
    repeat split; reflexivity.
Qed.

Lemma storable_mark_completed (t : Task) :
  storable (mark_completed t) = storable t.
Proof. reflexivity. Qed.

Lemma storable_update_at (i : nat) (ts : list Task) :
  forallb storable ts = true ->
  forallb storable (update_at i mark_completed ts) = true.
Proof.
  revert i. induction ts as [|t ts IH]; intros [|i] H; cbn [update_at forallb] in *;
    try reflexivity; apply andb_prop in H as [Ht Hts].
  - now rewrite storable_mark_completed, Ht, Hts.
  - now rewrite Ht, IH.
Qed.

Lemma storable_completed_at (task_id : Z) (ts : list Task) :
  forallb storable ts = true -> forallb storable (completed_at task_id ts) = true.
Proof.
  unfold completed_at. destruct (position task_id ts); [apply storable_update_at | auto].
Qed.

Lemma demo_list_storable (st : FileTaskStorage) (ts : list Task) :
  load_tasks st = Returned ts -> forallb storable (demo_list ts) = true.
Proof.
  intros H. destruct ts as [|t r]; [reflexivity|].
  exact (load_storable st _ H).
Qed.

Lemma demo_list_completed (ts : list Task) :
  demo_list (completed_at 1 (demo_list ts)) = completed_at 1 (demo_list ts).
Proof.
  assert (N : completed_at 1 (demo_list ts) <> []).
  { intros E. apply (f_equal (map id)) in E. rewrite completed_at_ids in E.
    destruct ts; discriminate E. }
  now destruct (completed_at 1 (demo_list ts)).
Qed.

Lemma main_leaves (st : FileTaskStorage) (ts : list Task) :
  load_tasks st = Returned ts -> openable st = true ->
  load_tasks (fst (main st)) = Returned (completed_at 1 (demo_list ts)).
Proof.
  intros H Ho. destruct (main_unfold st ts H Ho) as (_ & Hf & _).
  pose proof (storable_completed_at 1 _ (demo_list_storable st ts H)) as Hs.
  unfold completed_at in *.
  destruct (position 1 (demo_list ts)) as [i|] eqn:P.
  - rewrite (load_tasks_file _ (mkStorage (Stored (text_of (update_at i mark_completed
                                                             (demo_list ts)))) [])
               Hf).
    apply forallb_storable in Hs as [Hc Hl].
    now rewrite load_tasks_stored, file_lines_text_of, decoded_encode.
  - rewrite (load_tasks_file _ st Hf), H.
    destruct ts as [|t r]; [discriminate P | reflexivity].
Qed.

(** X17.  On a file that loads and can be written, the demo program does
    not raise: it adds its three tasks exactly when nothing was loaded,
    prints the list, and then the list with the first task of id 1
    completed; the file it leaves loads as the list it printed last. *)
Theorem main_prints_and_saves (st : FileTaskStorage) (ts : list Task) :
  load_tasks st = Returned ts -> openable st = true ->
  let shown := match ts with [] => seeded | _ => ts end in
  exists st',
    main st = (st', Returned (map str_task shown,
                              map str_task (completed_at 1 shown)))
    /\ load_tasks st' = Returned (completed_at 1 shown).
Proof.
  intros H Ho. cbv zeta. fold (demo_list ts).
  exists (fst (main st)). split.
  - rewrite (surjective_pairing (main st)). f_equal.
    exact (proj1 (main_unfold st ts H Ho)).
  - now apply main_leaves.
Qed.

Lemma main_prints_and_saves_witness :
  exists st',
    main sample_store
    = (st', Returned
              (["[ ] 3. Pay rent (Due: 2024-08-01) [Priority: high]";
                "[/] 7. Call, then write [Priority: medium]";
                "[/] 2. Walk [Priority: low]"],
               ["[ ] 3. Pay rent (Due: 2024-08-01) [Priority: high]";
                "[/] 7. Call, then write [Priority: medium]";
                "[/] 2. Walk [Priority: low]"]))
    /\ load_tasks st'
       = Returned [mkTask 3 "Pay rent" (Some "2024-08-01") false HIGH;
                   mkTask 7 "Call, then write" None true MEDIUM;
                   mkTask 2 "Walk" None true LOW].
Proof.
  exact (main_prints_and_saves sample_store _ eq_refl eq_refl).
Defined.

(** Where the file loads and cannot be written the demo raises: at the
    first task it adds on an empty list, or when it completes task 1. *)
Example main_raises_on_read_only_file :
  snd (main (mkStorage (ReadOnly "") [])) = Raised OSError
  /\ snd (main (mkStorage Uncreatable [])) = Raised OSError
  /\ snd (main (mkStorage (ReadOnly "1,Walk,None,False,low") [])) = Raised OSError
  /\ snd (main (mkStorage (ReadOnly "2,Walk,None,False,low") []))
     = Returned (["[ ] 2. Walk [Priority: low]"], ["[ ] 2. Walk [Priority: low]"]).
Proof. repeat split. Qed.

(** X18.  Running the demo program again changes nothing more: on a file
    that loads and can be written, the second run prints twice the list
    that the first run printed last, and leaves the text of the file as
    the first run left it. *)
Theorem main_twice (st : FileTaskStorage) (ts : list Task) :
  load_tasks st = Returned ts -> openable st = true ->
  exists before after,
    snd (main st) = Returned (before, after)
    /\ snd (main (fst (main st))) = Returned (after, after)
    /\ file (fst (main (fst (main st)))) = file (fst (main st)).
Proof.
  intros H Ho. destruct (main_unfold st ts H Ho) as (Hr & Hf & Ho1).
  pose proof (main_leaves st ts H Ho) as H1.
  destruct (main_unfold _ _ H1 Ho1) as (Hr1 & Hf1 & _).
  rewrite demo_list_completed, completed_at_twice in Hr1, Hf1.
  rewrite (position_same_ids 1 _ _ (completed_at_ids 1 (demo_list ts))) in Hf1.
  exists (map str_task (demo_list ts)), (map str_task (completed_at 1 (demo_list ts))).
  split; [exact Hr|]. split; [exact Hr1|].
  rewrite Hf1, Hf. now destruct (position 1 (demo_list ts)).
Qed.

Lemma main_twice_witness :
  exists before after,
    snd (main (mkStorage Missing [])) = Returned (before, after)
    /\ snd (main (fst (main (mkStorage Missing [])))) = Returned (after, after)
    /\ file (fst (main (fst (main (mkStorage Missing [])))))
       = file (fst (main (mkStorage Missing []))).
Proof.
  exact (main_twice (mkStorage Missing []) [] eq_refl eq_refl).
Defined.

(** ** What a restart would find *)

Lemma storable_fields (t u : Task) :
  description t = description u -> due_date t = due_date u ->
  storable t = storable u.
Proof.
  intros Hd Hdue. unfold storable, codable, on_one_line. now rewrite Hd, Hdue.
Qed.

Lemma storable_without (task_id : Z) (ts : list Task) :
  forallb storable ts = true -> forallb storable (without task_id ts) = true.
Proof.
  intros H. rewrite forallb_forall in *. intros t Ht.
  apply H. unfold without in Ht. now apply filter_In in Ht.
Qed.

Lemma loads_as_list_after_save (m : TaskManager FileTaskStorage)
    (ts : list Task) (n : Z) :
  openable (storage m) = true -> forallb storable ts = true ->
  loads_as_list (mkManager (fst (save_tasks ts (storage m))) ts n).
Proof.
  intros Ho Hts. unfold loads_as_list. cbn [storage tasks]. now apply reload.
Qed.

Lemma perform_loads_as_list (c : call) (m : TaskManager FileTaskStorage) :
  storable_call c = true -> openable (storage m) = true ->
  loads_as_list m -> loads_as_list (fst (perform c m)).
Proof.
  intros Hc Ho Hm. pose proof (load_storable _ _ Hm) as Hts.
  destruct c as [d due p|i|i]; cbn [perform storable_call] in *.
  - rewrite add_task_unfold. cbv zeta.
    assert (Hnew : forallb storable
                     (tasks m ++ [mkTask (next_id m) d due false (chosen p)]) = true).
    { rewrite forallb_app, Hts. cbn [forallb andb].
      rewrite (storable_fields _ (mkTask 0 d due false MEDIUM)) by reflexivity.
      now rewrite Hc. }
    pose proof (loads_as_list_after_save m _ (next_id m + 1) Ho Hnew) as L.
    rewrite save_tasks_openable in * by exact Ho. exact L.
  - rewrite mark_task_completed_unfold.
    destruct (position i (tasks m)); [|exact Hm].
    cbv zeta. cbn [fst].
    apply loads_as_list_after_save; [exact Ho | now apply storable_update_at].
  - rewrite remove_task_unfold. cbv zeta.
    destruct (_ =? _)%nat; [exact Hm|].
    cbn [fst].
    apply loads_as_list_after_save; [exact Ho | now apply storable_without].
Qed.

Lemma session_loads_as_list (cs : list call) (m : TaskManager FileTaskStorage) :
  forallb storable_call cs = true -> openable (storage m) = true ->
  loads_as_list m -> loads_as_list (fst (session cs m)).
Proof.
  revert m. induction cs as [|c rest IH]; intros m Hcs Ho Hm;
    cbn [session forallb] in *; [exact Hm|].
  apply andb_prop in Hcs as [Hc Hrest].
  pose proof (perform_loads_as_list c m Hc Ho Hm) as H1.
  pose proof (perform_openable c m Ho) as Ho1.
  destruct (perform c m) as [m1 ids1]. cbn [fst] in H1, Ho1.
  specialize (IH m1 Hrest Ho1 H1). now destruct (session rest m1).
Qed.

(** X19.  What is in memory is what a restart would find: on a file that
    can be written, from [__init__] on, through any calls whose added
    tasks have description and due date that the file gives back, the
    file always loads as the list in memory, so a new manager on the
    storage gets the same tasks in the same order - also when the file
    first held malformed lines. *)
Theorem restart_finds_the_list (st : FileTaskStorage)
    (m : TaskManager FileTaskStorage) (cs : list call) :
  init st = Returned m -> openable st = true ->
  forallb storable_call cs = true ->
  let m' := fst (session cs m) in
  load_tasks (storage m') = Returned (tasks m')
  /\ exists m'', init (storage m') = Returned m'' /\ tasks m'' = tasks m'.
Proof.
  intros Hinit Ho Hcs. cbv zeta.
  apply init_unfold in Hinit as (Hload & Hst & _).
  assert (Hm : loads_as_list m) by (unfold loads_as_list; now rewrite Hst).
  assert (Hom : openable (storage m) = true) by now rewrite Hst.
  pose proof (session_loads_as_list cs m Hcs Hom Hm) as H.
  split; [exact H|].
  eexists. split; [apply init_loaded, H | reflexivity].
Qed.

Lemma restart_finds_the_list_witness :
  let m := mkManager sample_store
             [mkTask 3 "Pay rent" (Some "2024-08-01") false HIGH;
              mkTask 7 "Call, then write" None true MEDIUM;
              mkTask 2 "Walk" None true LOW] 8 in
  let m' := fst (session [Add "Run, far" None AsNone; Remove 7; Complete 3] m) in
  load_tasks (storage m') = Returned (tasks m')
  /\ exists m'', init (storage m') = Returned m'' /\ tasks m'' = tasks m'.
Proof.
  exact (restart_finds_the_list sample_store _
           [Add "Run, far" None AsNone; Remove 7; Complete 3]
           eq_refl eq_refl eq_refl).
Defined.

(** Where the file cannot be written the list in memory moves on and the
    file stays behind. *)
Example restart_loses_unsaved :
  let st := mkStorage (ReadOnly ("1,Walk,None,False,low" ++ String LF "")) [] in
  exists m,
    init st = Returned m
    /\ tasks (fst (session [Add "Run" None AsNone] m))
       = [mkTask 1 "Walk" None false LOW; mkTask 2 "Run" None false MEDIUM]
    /\ load_tasks (storage (fst (session [Add "Run" None AsNone] m)))
       = Returned [mkTask 1 "Walk" None false LOW].
Proof. cbv zeta. eexists. split; [reflexivity|]. split; reflexivity. Qed.

(** A task added with a due date the file does not give back is not what
    a restart finds. *)
Example restart_loses_unstorable :
  let m' := fst (add_task "Run" (Some "None") AsNone
                   (mkManager (mkStorage Missing []) [] 1)) in
  tasks m' = [mkTask 1 "Run" (Some "None") false MEDIUM]
  /\ load_tasks (storage m') = Returned [mkTask 1 "Run" None false MEDIUM].
Proof. cbv zeta. split; reflexivity. Qed.
